(** * get_resilabels: gesamt alignment reports to GetContacts label files

    A shallow embedding of [get_resilabels.py] and the properties of its
    parsing and label-writing pipeline.

    Modelling conventions.
    - A Python [str] is a [list ascii]; a character is a code point below
      256 (the Latin-1 range), which covers everything gesamt prints.
    - A Python exception is a value of [exn]; code that can raise lives in
      the [result] monad, and the first exception raised wins, in Python's
      evaluation order.
    - A [dict] is an insertion-ordered association list with distinct keys.
    - The file system is seen through the trace of [open(..., "w+")] and
      [write] calls made by [main]; [run_trace] replays a trace on a finite
      map from paths to contents.
    - [os.path.splitext] is the POSIX one, [int] and [str.strip] are those
      of CPython 3.11. *)

From Stdlib Require Import Ascii String ZArith DecimalString Decimal DecimalPos.
From stdpp Require Import gmap strings list.

Local Open Scope Z_scope.
Local Open Scope list_scope.

(** ** Exceptions and the result monad *)

Inductive exn : Type :=
  | IndexError
  | ValueError
  | KeyError
  | OSError.

Inductive result (A : Type) : Type :=
  | Ok (a : A)
  | Raise (e : exn).
Arguments Ok {A} a.
Arguments Raise {A} e.

Global Instance result_ret : MRet result := fun A a => Ok a.
Global Instance result_bind : MBind result := fun A B f m =>
  match m with
  | Ok a => f a
  | Raise e => Raise e
  end.
Global Instance result_fmap : FMap result := fun A B f m =>
  match m with
  | Ok a => Ok (f a)
  | Raise e => Raise e
  end.

(** A list comprehension whose element expression can raise: elements are
    evaluated left to right and the first exception aborts the whole. *)
Fixpoint comprehension {A B} (f : A -> result B) (l : list A) : result (list B) :=
  match l with
  | [] => Ok []
  | x :: l' => y ← f x; ys ← comprehension f l'; Ok (y :: ys)
  end.

(** ** Python strings *)

Abbreviation str := (list ascii).

Definition lit (s : string) : str := list_ascii_of_string s.

Module Py.

(** [c.isspace()] for a code point below 256. *)
Definition is_space (c : ascii) : bool :=
  let n := N_of_ascii c in
  ((9 <=? n) && (n <=? 13) || (28 <=? n) && (n <=? 32)
   || (n =? 133) || (n =? 160))%N.

Fixpoint lstrip (s : str) : str :=
  match s with
  | c :: s' => if is_space c then lstrip s' else s
  | [] => []
  end.

Definition rstrip (s : str) : str := rev (lstrip (rev s)).

(** [s.strip()] *)
Definition strip (s : str) : str := rstrip (lstrip s).

Definition eqb (s t : str) : bool := bool_decide (s = t).

(** [s.startswith(p)] *)
Fixpoint startswith (p s : str) : bool :=
  match p, s with
  | [], _ => true
  | a :: p', b :: s' => bool_decide (a = b) && startswith p' s'
  | _ :: _, [] => false
  end.

(** [sub in s] on strings. *)
Fixpoint contains (sub s : str) : bool :=
  startswith sub s ||
  match s with
  | [] => false
  | _ :: s' => contains sub s'
  end.

(** [x in l] on a list of strings. *)
Definition mem (x : str) (l : list str) : bool := existsb (eqb x) l.

(** [s.split(sep)] for a non-empty [sep]: the occurrences of [sep] are
    found left to right and do not overlap.  [skip] counts the characters
    of a separator still to be passed over, [cur] is the field being
    read, reversed. *)
Fixpoint split_go (sep : str) (skip : nat) (cur : str) (s : str) : list str :=
  match s with
  | [] => [rev cur]
  | c :: s' =>
      match skip with
      | S k => split_go sep k cur s'
      | O =>
          if startswith sep s
          then rev cur :: split_go sep (pred (length sep)) [] s'
          else split_go sep O (c :: cur) s'
      end
  end.

Definition split (sep : str) (s : str) : list str := split_go sep O [] s.

(** [s.replace(old, new)] for a non-empty [old]. *)
Fixpoint replace_go (old new : str) (skip : nat) (s : str) : str :=
  match s with
  | [] => []
  | c :: s' =>
      match skip with
      | S k => replace_go old new k s'
      | O =>
          if startswith old s
          then new ++ replace_go old new (pred (length old)) s'
          else c :: replace_go old new O s'
      end
  end.

Definition replace (old new : str) (s : str) : str := replace_go old new O s.

(** [sep.join(l)] *)
Fixpoint join (sep : str) (l : list str) : str :=
  match l with
  | [] => []
  | [x] => x
  | x :: l' => x ++ sep ++ join sep l'
  end.

(** Slice bounds: a negative bound counts from the end, and both are
    clamped to the sequence; an omitted bound ([None]) is the start,
    respectively the end, of the sequence. *)
Definition bound (len : Z) (i : option Z) (default : Z) : Z :=
  match i with
  | None => default
  | Some i => if i <? 0 then Z.max (i + len) 0 else Z.min i len
  end.

(** [l[start:stop]] *)
Definition slice {A} (l : list A) (start stop : option Z) : list A :=
  let n := Z.of_nat (length l) in
  let a := bound n start 0 in
  let b := bound n stop n in
  take (Z.to_nat (b - a)) (drop (Z.to_nat a) l).

(** [l[i]] for a non-negative [i]. *)
Definition index {A} (l : list A) (i : nat) : result A :=
  match l !! i with
  | Some x => Ok x
  | None => Raise IndexError
  end.

Definition digit (c : ascii) : option Z :=
  let n := N_of_ascii c in
  if ((48 <=? n) && (n <=? 57))%N then Some (Z.of_N n - 48) else None.

Definition underscore : ascii := "_"%char.

(** The digits of an integer literal, after the sign: decimal digits,
    with single underscores allowed between two digits.  [acc] is the
    value read so far and [prev] tells whether the previous character
    was a digit. *)
Fixpoint digits (acc : Z) (prev : bool) (s : str) : option Z :=
  match s with
  | [] => if prev then Some acc else None
  | c :: s' =>
      match digit c with
      | Some d => digits (10 * acc + d) true s'
      | None =>
          if bool_decide (c = underscore) && prev
          then match s' with
               | c' :: _ =>
                   match digit c' with
                   | Some _ => digits acc false s'
                   | None => None
                   end
               | [] => None
               end
          else None
      end
  end.

(** The white space that [int] skips around a literal: the ASCII white
    space of C ([\t] to [\r] and the blank) and the Unicode spaces above
    127, which [int] first turns into blanks.  The separators 28 to 31,
    which [str.strip] removes, are not among them. *)
Definition is_int_space (c : ascii) : bool :=
  let n := N_of_ascii c in
  ((9 <=? n) && (n <=? 13) || (n =? 32) || (n =? 133) || (n =? 160))%N.

Fixpoint skip_space (s : str) : str :=
  match s with
  | c :: s' => if is_int_space c then skip_space s' else s
  | [] => []
  end.

(** The literal of [int(s)], without the white space around it. *)
Definition int_literal (s : str) : str := rev (skip_space (rev (skip_space s))).

(** The value of a literal: an optional sign and digits. *)
Definition literal_value (body : str) : option Z :=
  match body with
  | c :: rest =>
      if bool_decide (c = "-"%char) then Z.opp <$> digits 0 false rest
      else if bool_decide (c = "+"%char) then digits 0 false rest
      else digits 0 false body
  | [] => None
  end.

(** The number of digit characters of a literal. *)
Definition count_digits (s : str) : Z :=
  Z.of_nat (length (List.filter
                      (fun c => match digit c with Some _ => true | None => false end) s)).

(** [sys.int_info.default_max_str_digits] *)
Definition MAX_STR_DIGITS : Z := 4300.

(** [int(s)] in base 10 (CPython 3.11): surrounding white space is ignored,
    one sign is allowed, and a literal of more than [MAX_STR_DIGITS] digits
    is refused; anything else than a literal raises [ValueError] too. *)
Definition int (s : str) : result Z :=
  let body := int_literal s in
  match literal_value body with
  | Some z => if count_digits body <=? MAX_STR_DIGITS then Ok z else Raise ValueError
  | None => Raise ValueError
  end.

(** [str(n)] for an integer.  [str] refuses integers of more than
    [MAX_STR_DIGITS] digits; the program prints only what [int] returned,
    which is within that limit. *)
Definition of_int (z : Z) : str := lit (NilZero.string_of_int (Z.to_int z)).

(** A value used as a condition: [None] and [0] are false. *)
Definition truthy (o : option nat) : bool :=
  match o with
  | Some n => negb (Nat.eqb n 0)
  | None => false
  end.

(** [os.path.splitext(p)] (POSIX): the extension starts at the last dot
    of the last path component, unless that component has only leading
    dots before it. [rfind] gives the position of the last occurrence. *)
Fixpoint rfind_go (c : ascii) (s : str) (i : nat) (last : option nat) : option nat :=
  match s with
  | [] => last
  | a :: s' => rfind_go c s' (S i) (if bool_decide (a = c) then Some i else last)
  end.

Definition rfind (c : ascii) (s : str) : Z :=
  match rfind_go c s O None with
  | Some i => Z.of_nat i
  | None => -1
  end.

(** The [while] loop of [splitext]: is there a character other than a
    dot in [p[filenameIndex:dotIndex]]? *)
Definition has_stem (p : str) (filenameIndex dotIndex : Z) : bool :=
  existsb (fun c => negb (bool_decide (c = "."%char)))
          (slice p (Some filenameIndex) (Some dotIndex)).

Definition splitext (p : str) : str * str :=
  let sepIndex := rfind "/"%char p in
  let dotIndex := rfind "."%char p in
  if (sepIndex <? dotIndex) && has_stem p (sepIndex + 1) dotIndex
  then (slice p None (Some dotIndex), slice p (Some dotIndex) None)
  else (p, []).

End Py.

(** ** Dictionaries *)

(** A [dict] with string keys and string values, in insertion order. *)
Abbreviation dict := (list (str * str)).

Module Dict.

(** [d[k]] *)
Fixpoint get (k : str) (d : dict) : result str :=
  match d with
  | [] => Raise KeyError
  | (k', v) :: d' => if Py.eqb k k' then Ok v else get k d'
  end.

(** [d[k] = v]: an existing key keeps its place, a new one goes last. *)
Fixpoint set (k v : str) (d : dict) : dict :=
  match d with
  | [] => [(k, v)]
  | (k', v') :: d' => if Py.eqb k k' then (k', v) :: d' else (k', v') :: set k v d'
  end.

(** [list(d)], the keys in iteration order. *)
Definition keys (d : dict) : list str := d.*1.

End Dict.

(** ** The pairwise parser *)

Definition QUERY_MARK : str := lit "reading QUERY structure".
Definition TARGET_MARK : str := lit "reading TARGET structure".
Definition FIXED_MARK : str := lit "reading FIXED structure".
Definition MOVING_MARK : str := lit "reading MOVING structure".
Definition FILE_MARK : str := lit "... reading file".
Definition QUOTE : str := lit "'".
Definition PIPE : str := lit "|".

(** The lines of [parse_two_queries] that name a structure. *)
Definition pair_marker (line : str) : bool :=
  Py.contains QUERY_MARK line || Py.contains TARGET_MARK line
  || Py.contains FIXED_MARK line || Py.contains MOVING_MARK line.

(** The lines of [parse_more_than_two_queries] that name a structure. *)
Definition multi_marker (line : str) : bool := Py.contains FILE_MARK line.

(** The first loop of both parsers: the quoted file name of every marker
    line, without its extension. *)
Fixpoint read_proteins (marker : str -> bool) (gesamt_lines : list str) : result (list str) :=
  match gesamt_lines with
  | [] => Ok []
  | line :: rest =>
      if marker line then
        protein_filename ← Py.index (Py.split QUOTE line) 1;
        proteins ← read_proteins marker rest;
        Ok ((Py.splitext protein_filename).1 :: proteins)
      else read_proteins marker rest
  end.

Definition line_tokens (line : str) : list str := Py.strip <$> Py.split PIPE line.

(** The header of the pairwise table,
    ["|    Query    |  Dist.(A)  |   Target    |"]. *)
Definition pair_header (line : str) : bool :=
  let toks := line_tokens line in
  (Py.mem (lit "Query") toks || Py.mem (lit "FIXED") toks)
  && Py.mem (lit "Dist.(A)") toks
  && (Py.mem (lit "Target") toks || Py.mem (lit "MOVING") toks).

(** The header of the multi-way table. *)
Definition multi_header (line : str) : bool := Py.mem (lit "Disp.") (line_tokens line).

(** The second loop of both parsers.  [idx] is the index of the first line
    of [gesamt_lines] and [alignment_start_idx] the value found so far;
    the result is [(alignment_start_idx, alignment_end_idx)]. *)
Fixpoint find_bounds (header : str -> bool) (gesamt_lines : list str) (idx : nat)
    (alignment_start_idx : option nat) : option nat * option nat :=
  match gesamt_lines with
  | [] => (alignment_start_idx, None)
  | line :: rest =>
      if negb (Py.truthy alignment_start_idx) then
        if header line
        then find_bounds header rest (S idx) (Some (idx + 2)%nat)
        else find_bounds header rest (S idx) alignment_start_idx
      else
        if Py.contains QUOTE line
        then (alignment_start_idx, Some idx)
        else find_bounds header rest (S idx) alignment_start_idx
  end.

(** [gesamt_lines[alignment_start_idx:alignment_end_idx]] *)
Definition alignment_body (header : str -> bool) (gesamt_lines : list str) : list str :=
  let '(alignment_start_idx, alignment_end_idx) := find_bounds header gesamt_lines O None in
  Py.slice gesamt_lines (Z.of_nat <$> alignment_start_idx) (Z.of_nat <$> alignment_end_idx).

(** ["|H- A:LEU  75 | <**0.82**> |H- A:LEU  65 |"] to
    [["H- A:LEU  75"; "H- A:LEU  65"]]. *)
Definition pair_fields (line : str) : result (list str) :=
  comprehension (fun idx => Py.strip <$> Py.index (Py.split PIPE line) idx) [1; 3]%nat.

(** ["H- A:LEU  75"] to ["A:LEU:75"]. *)
Definition pair_normalize (token : str) : result str :=
  if (0 <? length token)%nat then
    resnum ← Py.int (Py.slice token (Some (-4)) None);
    Ok (Py.slice token (Some (-9)) (Some (-4)) ++ lit ":" ++ Py.strip (Py.of_int resnum))
  else Ok [].

Definition parse_two_queries (gesamt_lines : list str) : result (list (list str) * list str) :=
  proteins ← read_proteins pair_marker gesamt_lines;
  let alignment_lines := alignment_body pair_header gesamt_lines in
  alignment_lines ← comprehension pair_fields alignment_lines;
  alignment_lines ← comprehension (comprehension pair_normalize) alignment_lines;
  Ok (alignment_lines, proteins).

(** ** The multi-way parser *)

(** ["H|A:ASN 103"] to ["A:ASN 103"]. *)
Definition strip_flag (token : str) : result str :=
  if Py.contains PIPE token then Py.index (Py.split PIPE token) 1 else Ok token.

(** ["A:LEU  75"] to ["A:LEU:75"]. *)
Definition multi_normalize (token : str) : result str :=
  if (0 <? length token)%nat then
    resnum ← Py.int (Py.slice token (Some 5) None);
    Ok (Py.slice token None (Some 5) ++ lit ":" ++ Py.of_int resnum)
  else Ok token.

(** The fields of a body line, up to and including the removal of the
    displacement column. *)
Definition multi_fields (line : str) : list str :=
  let line := Py.replace (lit "|*|") (lit "| |") line in
  let line := Py.strip <$> Py.split (lit "| |") line in
  Py.slice line (Some 1) None.

(** One turn of the loop over the body lines. *)
Definition multi_line (line : str) : result (list str) :=
  let line := multi_fields line in
  line ← comprehension strip_flag line;
  comprehension multi_normalize line.

Definition parse_more_than_two_queries (gesamt_lines : list str)
    : result (list (list str) * list str) :=
  proteins ← read_proteins multi_marker gesamt_lines;
  let alignment_lines := alignment_body multi_header gesamt_lines in
  reformatted_alignment_lines ← comprehension multi_line alignment_lines;
  Ok (reformatted_alignment_lines, proteins).

(** ** Output: the trace of file operations *)

Inductive event : Type :=
  | EOpen (path : str)                 (* [open(path, "w+")] succeeded *)
  | EWrite (path : str) (data : str).  (* [w_open.write(data)] on that file *)

(** A computation that raises or returns, after some file operations. *)
Definition io (A : Type) : Type := list event * result A.

Definition io_ret {A} (a : A) : io A := ([], Ok a).
Definition io_bind {A B} (m : io A) (f : A -> io B) : io B :=
  match m with
  | (t, Ok a) => let '(t', r) := f a in (t ++ t', r)
  | (t, Raise e) => (t, Raise e)
  end.
Definition lift {A} (r : result A) : io A := ([], r).
Definition emit (e : event) : io unit := ([e], Ok ()).

Declare Scope io_scope.
Delimit Scope io_scope with io.
Notation "x <- m ;; k" := (io_bind m (fun x => k))
  (at level 100, m at next level, right associativity) : io_scope.
Notation "m ;; k" := (io_bind m (fun _ => k))
  (at level 100, right associativity) : io_scope.

(** The contents of the files after a trace: opening with ["w+"] creates
    or truncates, writing appends. *)
Definition run_event (fs : gmap str str) (e : event) : gmap str str :=
  match e with
  | EOpen path => <[path := []]> fs
  | EWrite path data => <[path := default [] (fs !! path) ++ data]> fs
  end.

Definition run_trace (t : list event) (fs : gmap str str) : gmap str str :=
  foldl run_event fs t.

(** ** The label assembler and writer of [main] *)

Definition GENERIC : str := lit "generic_resname".
Definition NONE : str := lit "None".
Definition TAB : str := ["009"%char].
Definition NL : str := ["010"%char].

(** [{proteins[idx]: residue for idx, residue in enumerate(line)}], from
    index [idx] on, added to [d]. *)
Fixpoint row_dict (proteins : list str) (idx : nat) (line : list str) (d : dict) : result dict :=
  match line with
  | [] => Ok d
  | residue :: rest =>
      protein ← Py.index proteins idx;
      row_dict proteins (S idx) rest (Dict.set protein residue d)
  end.

(** [line[protein] if len(line[protein]) > 0 else "None"] *)
Definition or_none (line : dict) (protein : str) : result str :=
  token ← Dict.get protein line;
  if (0 <? length token)%nat then Dict.get protein line else Ok NONE.

(** [line["generic_resname"] = "-".join([... for protein in line])] *)
Definition add_generic (line : dict) : result dict :=
  parts ← comprehension (or_none line) (Dict.keys line);
  Ok (Dict.set GENERIC (Py.join (lit "-") parts) line).

(** ["{}/{}.label".format(output_path, protein)] *)
Definition label_path (output_path protein : str) : str :=
  output_path ++ lit "/" ++ protein ++ lit ".label".

(** ["{}\t{}\t\n".format(token, generic)] *)
Definition label_line (token generic : str) : str :=
  token ++ TAB ++ generic ++ TAB ++ NL.

Section Main.

(** Whether [open(path, "w+")] succeeds: the directory of [path] exists
    and can be written to.  The program creates no directory, so this
    does not change while it runs. *)
Variable can_open : str -> bool.

Local Open Scope io_scope.

(** The loop over the records, inside [with open(...) as w_open]. *)
Fixpoint write_lines (path protein : str) (alignment_lines : list dict) : io unit :=
  match alignment_lines with
  | [] => io_ret ()
  | line :: rest =>
      token <- lift (Dict.get protein line) ;;
      (if (length token =? 0)%nat then io_ret ()
       else
         token <- lift (Dict.get protein line) ;;
         generic <- lift (Dict.get GENERIC line) ;;
         emit (EWrite path (label_line token generic))) ;;
      write_lines path protein rest
  end.

(** The loop over the structure names. *)
Fixpoint write_labels (output_path : str) (proteins : list str)
    (alignment_lines : list dict) : io unit :=
  match proteins with
  | [] => io_ret ()
  | protein :: rest =>
      let path := label_path output_path protein in
      (if can_open path then emit (EOpen path) else lift (Raise OSError)) ;;
      write_lines path protein alignment_lines ;;
      write_labels output_path rest alignment_lines
  end.

(** The lines of the input file, trimmed, without the blank ones. *)
Definition read_gesamt (raw_lines : list str) : list str :=
  List.filter (fun line => (0 <? length line)%nat) (Py.strip <$> raw_lines).

(** The test that chooses the parser. *)
Definition two_queries (gesamt_lines : list str) : bool :=
  Py.contains QUERY_MARK (Py.join [] gesamt_lines)
  || Py.contains FIXED_MARK (Py.join [] gesamt_lines).

Definition parse (gesamt_lines : list str) : result (list (list str) * list str) :=
  if two_queries gesamt_lines
  then parse_two_queries gesamt_lines
  else parse_more_than_two_queries gesamt_lines.

(** The records of [main]: one [dict] per row, with its generic label. *)
Definition assemble (proteins : list str) (alignment_lines : list (list str))
    : result (list dict) :=
  alignment_lines ← comprehension (fun line => row_dict proteins O line []) alignment_lines;
  comprehension add_generic alignment_lines.

(** What [main] does with the result of the parser. *)
Definition label_files (output_path : str) (input_proteins : option (list str))
    (parsed : list (list str) * list str) : io unit :=
  let '(alignment_lines, proteins) := parsed in
  let proteins := default proteins input_proteins in
  alignment_lines <- lift (assemble proteins alignment_lines) ;;
  write_labels output_path proteins alignment_lines.

(** [main], from the lines read from [--input_gesamt] on.
    [input_proteins] is the value of [--proteins], [None] when absent. *)
Definition main (raw_lines : list str) (output_path : str)
    (input_proteins : option (list str)) : io unit :=
  let gesamt_lines := read_gesamt raw_lines in
  parsed <- lift (parse gesamt_lines) ;;
  label_files output_path input_proteins parsed.

End Main.

(** * Specification vocabulary *)

(** The notions used to state the properties, and the reports of the
    scenarios. *)

(** A closed decidable proposition, settled by evaluation. *)
Ltac by_decide := apply (bool_decide_unpack _); vm_compute; exact I.

(** The characters of [token] at positions [[-9:-4]]. *)
Definition chain_resname (token : str) : str :=
  take ((length token - 4) - (length token - 9)) (drop (length token - 9) token).

(** The last four characters of [token]. *)
Definition last_four (token : str) : str := drop (length token - 4) token.

(** [out] is the canonical token of the descriptor [token]. *)
Definition canonical (token out : str) : Prop :=
  if decide (token = []) then out = []
  else exists resnum : Z,
      Py.int (last_four token) = Ok resnum
      /\ out = chain_resname token ++ lit ":" ++ Py.of_int resnum.

(** [sub] occurs in [s]. *)
Definition substring (sub s : str) : Prop :=
  exists pre post : str, s = pre ++ sub ++ post.

(** The report of the pairwise scenario. *)
Definition pairwise_report : list str :=
  lit <$> [ "... reading QUERY structure from file 'foo1.pdb' ...";
            "... reading TARGET structure from file 'foo2.pdb' ...";
            "";
            "|    Query    |  Dist.(A)  |   Target    |";
            "|-------------+------------+-------------|";
            "|H- A:LEU  75 | <**0.82**> |H- A:LEU  65 |";
            "`-------------'------------'-------------'" ]%string.

(** The header looked for by the parser that [main] selects. *)
Definition selected_header (gesamt_lines : list str) : str -> bool :=
  if two_queries gesamt_lines then pair_header else multi_header.

(** A report without a table header, one body line, named by [--proteins]. *)
Definition headless_report : list str := [lit "0.5 | | A:CYS 341"].

(** The text of [s] after its first [c]. *)
Fixpoint after_first (c : ascii) (s : str) : str :=
  match s with
  | [] => []
  | a :: s' => if bool_decide (a = c) then s' else after_first c s'
  end.

(** The text of [s] before its first [c], all of [s] when there is none. *)
Fixpoint before_first (c : ascii) (s : str) : str :=
  match s with
  | [] => []
  | a :: s' => if bool_decide (a = c) then [] else a :: before_first c s'
  end.

(** [R[S]], the empty token when the record has no key [S]. *)
Definition token (R : dict) (S : str) : str :=
  match Dict.get S R with
  | Ok tok => tok
  | Raise _ => []
  end.

Definition none_if_empty (tok : str) : str :=
  if decide (tok = []) then NONE else tok.

(** The ['-']-join, over the names in order, of each name's token, with
    ["None"] for an empty token. *)
Definition generic_of (names : list str) (token_of : str -> str) : str :=
  Py.join (lit "-") ((fun S => none_if_empty (token_of S)) <$> names).

(** Any assignment of tokens to names that gives each name the token at
    its position in the row. *)
Definition positional (names row : list str) (token_of : str -> str) : Prop :=
  forall (i : nat) (S tok : str),
    names !! i = Some S -> row !! i = Some tok -> token_of S = tok.

(** The lines of the label file of [S], as the specification words them:
    the records whose token for [S] is empty are left out, and each other
    record gives its token, a tab, its generic label, a tab and a newline. *)
Definition label_lines (S : str) (records : list dict) : list str :=
  (fun R => label_line (token R S) (token R GENERIC))
    <$> filter (fun R => token R S <> []) records.

Definition label_file (S : str) (records : list dict) : str :=
  concat (label_lines S records).

(** The paths opened by a trace, in order. *)
Definition opened (t : list event) : list str :=
  omap (fun e => match e with EOpen path => Some path | EWrite _ _ => None end) t.

(** Every write of the trace goes to a file that is in [open] or was
    opened earlier in the trace. *)
Fixpoint well_opened (open : gset str) (t : list event) : Prop :=
  match t with
  | [] => True
  | EOpen path :: t' => well_opened ({[path]} ∪ open) t'
  | EWrite path _ :: t' => path ∈ open /\ well_opened open t'
  end.

(** A pairwise report whose first structure was read from a subdirectory. *)
Definition nested_report : list str :=
  lit <$> [ "... reading QUERY structure from file 'dir/foo1.pdb' ...";
            "... reading TARGET structure from file 'foo2.pdb' ...";
            "|    Query    |  Dist.(A)  |   Target    |";
            "|-------------+------------+-------------|";
            "|H- A:LEU  75 | <**0.82**> |H- A:LEU  65 |";
            "`-------------'------------'-------------'" ]%string.

(** A multi-way report of three structures whose first body line has a
    gap in the third column. *)
Definition multiway_report : list str :=
  lit <$> [ "... reading file 'foo1.pdb'";
            "... reading file 'foo2.pdb'";
            "... reading file 'foo3.pdb'";
            "  Disp. | | foo1 | | foo2 | | foo3";
            "--------+-+------+-+------+-+-----";
            "6.034 | |  A:CYS 341 | |  A:MET 456 | |";
            "6.034 |*|  A:CYS 341 |*|H|A:ASN 103 |*|  D:LEU 559";
            "'--------" ]%string.


(** A pairwise report whose table is closed by a line without ['|'] and
    without a single quote, so that this line is read as a body line. *)
Definition unclosed_report : list str :=
  lit <$> [ "... reading QUERY structure from file 'foo1.pdb' ...";
            "... reading TARGET structure from file 'foo2.pdb' ...";
            "|    Query    |  Dist.(A)  |   Target    |";
            "|-------------+------------+-------------|";
            "|H- A:LEU  75 | <**0.82**> |H- A:LEU  65 |";
            "Summary" ]%string.

(** The generic label of a row: its tokens joined by ['-'], with ["None"]
    for the empty ones. *)
Definition row_label (row : list str) : str :=
  Py.join (lit "-") (none_if_empty <$> row).

(** The token of column [i] of a row, empty when the row is too short. *)
Definition column (i : nat) (row : list str) : str := default [] (row !! i).

(** The file an event acts on. *)
Definition event_path (e : event) : str :=
  match e with
  | EOpen path => path
  | EWrite path _ => path
  end.

(** A pairwise report whose table is closed right after its separator. *)
Definition rowless_report : list str :=
  lit <$> [ "... reading QUERY structure from file 'foo1.pdb' ...";
            "... reading TARGET structure from file 'foo2.pdb' ...";
            "|    Query    |  Dist.(A)  |   Target    |";
            "|-------------+------------+-------------|";
            "`-------------'------------'-------------'" ]%string.

(** * Properties *)

(** ** The result and io monads *)

Lemma bind_Ok {A B} (f : A -> result B) (m : result A) (b : B) :
  m ≫= f = Ok b <-> exists a, m = Ok a /\ f a = Ok b.
Proof.
  destruct m as [a|e]; simpl; split.
  - intros H. by exists a.
  - by intros (a' & [= <-] & H).
  - discriminate.
  - by intros (a' & [=] & _).
Qed.

Lemma comprehension_Ok {A B} (f : A -> result B) (l : list A) (l' : list B) :
  comprehension f l = Ok l' <-> Forall2 (fun x y => f x = Ok y) l l'.
Proof.
  revert l'. induction l as [|x l IH]; intros l'; simpl.
  - split; [intros [= <-]; constructor | by inversion 1].
  - split.
    + intros (y & Hy & (ys & Hys & [= <-])%bind_Ok)%bind_Ok.
      constructor; [done | by apply IH].
    + inversion 1 as [|? y ? ys Hy Hys]; subst.
      apply bind_Ok. exists y; split; [done|].
      apply bind_Ok. exists ys; split; [by apply IH | done].
Qed.

Lemma comprehension_total {A B} (f : A -> result B) (g : A -> B) (l : list A) :
  Forall (fun x => f x = Ok (g x)) l -> comprehension f l = Ok (g <$> l).
Proof.
  induction 1 as [|x l Hx _ IH]; simpl; [done|]. by rewrite Hx, IH.
Qed.

Lemma comprehension_length {A B} (f : A -> result B) (l : list A) (l' : list B) :
  comprehension f l = Ok l' -> length l' = length l.
Proof. intros H%comprehension_Ok. symmetry. by eapply Forall2_length. Qed.

(** ** Slices *)

Lemma slice_all {A} (l : list A) : Py.slice l None None = l.
Proof.
  unfold Py.slice; simpl. rewrite Z.sub_0_r, Nat2Z.id, drop_0.
  by apply take_ge.
Qed.

Lemma slice_last {A} (l : list A) (k : nat) :
  Py.slice l (Some (- Z.of_nat (S k))) None = drop (length l - S k) l.
Proof.
  unfold Py.slice, Py.bound.
  destruct (Z.ltb_spec (- Z.of_nat (S k)) 0) as [_|?]; [|lia].
  replace (Z.to_nat (Z.max (- Z.of_nat (S k) + Z.of_nat (length l)) 0))
    with (length l - S k)%nat by lia.
  apply take_ge. rewrite length_drop. lia.
Qed.

Lemma slice_from {A} (l : list A) (k : nat) :
  Py.slice l (Some (Z.of_nat k)) None = drop k l.
Proof.
  unfold Py.slice, Py.bound.
  destruct (Z.ltb_spec (Z.of_nat k) 0) as [?|_]; [lia|].
  destruct (decide (k <= length l)%nat) as [Hk|Hk].
  - replace (Z.to_nat (Z.min (Z.of_nat k) (Z.of_nat (length l)))) with k by lia.
    apply take_ge. rewrite length_drop. lia.
  - replace (Z.to_nat (Z.min (Z.of_nat k) (Z.of_nat (length l))))
      with (length l) by lia.
    rewrite !drop_ge by lia. by rewrite take_nil.
Qed.

Lemma slice_upto {A} (l : list A) (k : nat) :
  Py.slice l None (Some (Z.of_nat k)) = take k l.
Proof.
  unfold Py.slice, Py.bound.
  destruct (Z.ltb_spec (Z.of_nat k) 0) as [?|_]; [lia|].
  rewrite Z.sub_0_r. simpl. rewrite drop_0.
  destruct (decide (k <= length l)%nat) as [Hk|Hk].
  - by replace (Z.to_nat (Z.min (Z.of_nat k) (Z.of_nat (length l)))) with k by lia.
  - replace (Z.to_nat (Z.min (Z.of_nat k) (Z.of_nat (length l))))
      with (length l) by lia.
    rewrite !take_ge; [done | lia | lia].
Qed.

Lemma slice_between {A} (l : list A) (a b : nat) :
  (a <= b <= length l)%nat ->
  Py.slice l (Some (Z.of_nat a)) (Some (Z.of_nat b)) = take (b - a) (drop a l).
Proof.
  intros Hab. unfold Py.slice, Py.bound.
  destruct (Z.ltb_spec (Z.of_nat a) 0) as [?|_]; [lia|].
  destruct (Z.ltb_spec (Z.of_nat b) 0) as [?|_]; [lia|].
  f_equal; [|f_equal]; lia.
Qed.

Lemma slice_back {A} (l : list A) (j k : nat) :
  Py.slice l (Some (- Z.of_nat (S j))) (Some (- Z.of_nat (S k)))
  = take ((length l - S k) - (length l - S j)) (drop (length l - S j) l).
Proof.
  unfold Py.slice, Py.bound.
  destruct (Z.ltb_spec (- Z.of_nat (S j)) 0) as [_|?]; [|lia].
  destruct (Z.ltb_spec (- Z.of_nat (S k)) 0) as [_|?]; [|lia].
  f_equal; [|f_equal]; lia.
Qed.

(** ** Trimming and integers *)

Lemma lstrip_no_space (s : str) :
  Forall (fun c => Py.is_space c = false) s -> Py.lstrip s = s.
Proof. destruct 1 as [|c s Hc _]; simpl; [done | by rewrite Hc]. Qed.

Lemma strip_no_space (s : str) :
  Forall (fun c => Py.is_space c = false) s -> Py.strip s = s.
Proof.
  intros Hs. unfold Py.strip, Py.rstrip.
  rewrite (lstrip_no_space s Hs), lstrip_no_space, rev_involutive; [done|].
  by apply Forall_rev.
Qed.

Lemma string_of_uint_no_space (d : uint) :
  Forall (fun c => Py.is_space c = false) (lit (NilEmpty.string_of_uint d)).
Proof. induction d; simpl; constructor; done. Qed.

Lemma of_int_no_space (z : Z) :
  Forall (fun c => Py.is_space c = false) (Py.of_int z).
Proof.
  unfold Py.of_int, NilZero.string_of_int, NilZero.string_of_uint.
  destruct (Z.to_int z) as [d|d]; destruct d; simpl;
    repeat (constructor; [done|]); try apply string_of_uint_no_space;
    constructor.
Qed.

(** [str(n)] has nothing for [strip] to remove. *)
Lemma strip_of_int (z : Z) : Py.strip (Py.of_int z) = Py.of_int z.
Proof. apply strip_no_space, of_int_no_space. Qed.

(** ** Residue normalization in the pairwise parser *)

Lemma pair_normalize_eq (token : str) :
  pair_normalize token =
    if decide (token = []) then Ok []
    else resnum ← Py.int (last_four token);
         Ok (chain_resname token ++ lit ":" ++ Py.of_int resnum).
Proof.
  unfold pair_normalize, last_four, chain_resname.
  destruct token as [|c token]; [done|].
  rewrite decide_False by done.
  change (0 <? length (c :: token))%nat with true. cbv iota.
  change (-4) with (- Z.of_nat 4). change (-9) with (- Z.of_nat 9).
  rewrite slice_last, slice_back.
  destruct (Py.int _) as [z|e]; simpl; [|done].
  by rewrite strip_of_int.
Qed.

Lemma pair_normalize_canonical (token out : str) :
  pair_normalize token = Ok out <-> canonical token out.
Proof.
  rewrite pair_normalize_eq. unfold canonical.
  destruct (decide (token = [])) as [->|Hne].
  - split; [by intros [= <-] | by intros ->].
  - rewrite bind_Ok. split; intros (z & Hz & H); exists z; split; try done.
    + by injection H as <-.
    + by rewrite H.
Qed.

Example pair_normalize_LEU :
  pair_normalize (lit "H- A:LEU  75") = Ok (lit "A:LEU:75").
Proof. reflexivity. Qed.

(** C1. Every row returned by the pairwise parser is obtained from the two
    trimmed descriptors of a body line (fields 1 and 3), each non-empty
    descriptor giving its characters [[-9:-4]], a colon, and its last four
    characters read as an integer, and each empty descriptor giving the
    empty token; so ["H- A:LEU  75"] gives ["A:LEU:75"]. *)
Theorem pairwise_normalization (gesamt_lines : list str)
    (rows : list (list str)) (proteins : list str) :
  parse_two_queries gesamt_lines = Ok (rows, proteins) ->
  (exists descriptors : list (list str),
      comprehension pair_fields (alignment_body pair_header gesamt_lines)
        = Ok descriptors
      /\ Forall2 (Forall2 canonical) descriptors rows)
  /\ canonical (lit "H- A:LEU  75") (lit "A:LEU:75")
  /\ canonical [] [].
Proof.
  intros H. split; [|split].
  - unfold parse_two_queries in H.
    apply bind_Ok in H as (names & _ & H).
    apply bind_Ok in H as (descriptors & Hd & H).
    apply bind_Ok in H as (rows' & Hr & [= <- _]).
    exists descriptors. split; [done|].
    apply comprehension_Ok in Hr.
    eapply Forall2_impl; [exact Hr|].
    intros line row Hline. apply comprehension_Ok in Hline.
    eapply Forall2_impl; [exact Hline|].
    intros token out. apply pair_normalize_canonical.
  - apply pair_normalize_canonical. reflexivity.
  - apply pair_normalize_canonical. reflexivity.
Qed.

(** ** Substrings *)

Lemma startswith_spec (p s : str) :
  Py.startswith p s = true <-> exists post, s = p ++ post.
Proof.
  revert s. induction p as [|a p IH]; intros s; simpl.
  - split; [by exists s | done].
  - destruct s as [|b s].
    + split; [done | by intros (post & [=])].
    + rewrite andb_true_iff, bool_decide_eq_true, IH. split.
      * intros (-> & post & ->). by exists post.
      * intros (post & [= -> ->]). split; [done | by exists post].
Qed.

Lemma contains_spec (sub s : str) :
  Py.contains sub s = true <-> substring sub s.
Proof.
  unfold substring. induction s as [|c s IH]; simpl.
  - rewrite orb_false_r, startswith_spec. split.
    + intros (post & H). by exists [], post.
    + intros (pre & post & H). destruct pre; [by exists post|done].
  - rewrite orb_true_iff, startswith_spec, IH. split.
    + intros [(post & H)|(pre & post & ->)].
      * by exists [], post.
      * by exists (c :: pre), post.
    + intros (pre & post & H). destruct pre as [|c' pre].
      * left. by exists post.
      * right. injection H as -> ->. by exists pre, post.
Qed.

Lemma contains_char (c : ascii) (s : str) :
  Py.contains [c] s = true <-> c ∈ s.
Proof.
  rewrite contains_spec. unfold substring. split.
  - intros (pre & post & ->). rewrite !elem_of_app, elem_of_cons. auto.
  - intros (pre & post & ->)%list_elem_of_split. by exists pre, post.
Qed.

Lemma join_empty (l : list str) : Py.join [] l = concat l.
Proof.
  induction l as [|x [|y l] IH]; simpl in *; [done| |].
  - by rewrite app_nil_r.
  - by rewrite IH.
Qed.

(** ** Format detection *)

Lemma read_gesamt_filter (raw_lines : list str) :
  read_gesamt raw_lines = filter (fun line => line <> []) (Py.strip <$> raw_lines).
Proof.
  unfold read_gesamt. induction (Py.strip <$> raw_lines) as [|l ls IH]; [done|].
  rewrite filter_cons. destruct l as [|c l]; case_decide; simpl; try done.
  by rewrite IH.
Qed.

(** C4. The parser is chosen by looking for ["reading QUERY structure"]
    or ["reading FIXED structure"] in the concatenation of the trimmed
    non-blank lines: when one occurs [main] goes on with the pairwise
    parser, otherwise with the multi-way parser, and the choice itself
    raises nothing. *)
Theorem format_detection (can_open : str -> bool) (raw_lines : list str)
    (output_path : str) (input_proteins : option (list str)) :
  read_gesamt raw_lines = filter (fun line => line <> []) (Py.strip <$> raw_lines)
  /\ (substring QUERY_MARK (concat (read_gesamt raw_lines))
      \/ substring FIXED_MARK (concat (read_gesamt raw_lines)) ->
      main can_open raw_lines output_path input_proteins
      = io_bind (lift (parse_two_queries (read_gesamt raw_lines)))
                (label_files can_open output_path input_proteins))
  /\ (~ (substring QUERY_MARK (concat (read_gesamt raw_lines))
         \/ substring FIXED_MARK (concat (read_gesamt raw_lines))) ->
      main can_open raw_lines output_path input_proteins
      = io_bind (lift (parse_more_than_two_queries (read_gesamt raw_lines)))
                (label_files can_open output_path input_proteins)).
Proof.
  split; [apply read_gesamt_filter|].
  unfold main, parse, two_queries. rewrite join_empty.
  rewrite <- !contains_spec, <- orb_true_iff.
  destruct (_ || _); split; intros H; try done; try by destruct H.
Qed.

(** ** Structure names *)

Lemma split_go_absent (c : ascii) (cur s : str) :
  c ∉ s -> Py.split_go [c] O cur s = [rev cur ++ s].
Proof.
  revert cur. induction s as [|a s IH]; intros cur Hc; simpl.
  - by rewrite app_nil_r.
  - apply not_elem_of_cons in Hc as [Hne Hc].
    rewrite bool_decide_eq_false_2 by done. simpl.
    rewrite IH by done. simpl. by rewrite <- app_assoc.
Qed.

Lemma index_unquoted (line : str) :
  Py.contains QUOTE line = false -> Py.index (Py.split QUOTE line) 1 = Raise IndexError.
Proof.
  intros H. unfold Py.split. change QUOTE with ["'"%char] in *.
  rewrite split_go_absent; [done|].
  intros Hin%contains_char. congruence.
Qed.

Lemma read_proteins_unquoted (marker : str -> bool) (gesamt_lines : list str) (line : str) :
  line ∈ gesamt_lines -> marker line = true -> Py.contains QUOTE line = false ->
  read_proteins marker gesamt_lines = Raise IndexError.
Proof.
  intros Hin Hm Hq. induction gesamt_lines as [|l ls IH]; [by inversion Hin|].
  simpl. apply elem_of_cons in Hin as [<-|Hin].
  - by rewrite Hm, index_unquoted.
  - rewrite (IH Hin). destruct (marker l); [|done].
    unfold Py.index. by destruct (_ !! _).
Qed.

(** C9, as the code has it. When a line carries a structure-name marker of
    the parser that runs (one of the four ["reading ... structure"] markers
    for the pairwise parser, ["... reading file"] for the multi-way parser)
    and has no single quote, [main] raises [IndexError] and has opened no
    file. *)
Theorem unquoted_marker_aborts (can_open : str -> bool) (raw_lines : list str)
    (output_path : str) (input_proteins : option (list str)) (line : str) :
  line ∈ read_gesamt raw_lines ->
  (if two_queries (read_gesamt raw_lines) then pair_marker line else multi_marker line) = true ->
  Py.contains QUOTE line = false ->
  Py.index (Py.split QUOTE line) 1 = Raise IndexError
  /\ main can_open raw_lines output_path input_proteins = ([], Raise IndexError).
Proof.
  intros Hin Hm Hq. split; [by apply index_unquoted|].
  unfold main, parse.
  destruct (two_queries _).
  - unfold parse_two_queries.
    by rewrite (read_proteins_unquoted _ _ line Hin Hm Hq).
  - unfold parse_more_than_two_queries.
    by rewrite (read_proteins_unquoted _ _ line Hin Hm Hq).
Qed.

(** C9 fails as stated: a line with the marker ["reading TARGET structure"]
    and no single quote, in a report without ["reading QUERY structure"]
    and ["reading FIXED structure"], is handed to the multi-way parser,
    which does not look for that marker; the run ends without an
    exception. *)
Lemma unquoted_marker_counterexample :
  lit "reading TARGET structure foo.pdb"
    ∈ read_gesamt [lit "reading TARGET structure foo.pdb"]
  /\ pair_marker (lit "reading TARGET structure foo.pdb") = true
  /\ Py.contains QUOTE (lit "reading TARGET structure foo.pdb") = false
  /\ main (fun _ => true) [lit "reading TARGET structure foo.pdb"] (lit "out") None
     = ([], Ok ())
  /\ main (fun _ => true) [lit "reading TARGET structure foo.pdb"] (lit "out") None
     <> ([], Raise IndexError).
Proof.
  split; [by_decide|]. split; [reflexivity|]. split; [reflexivity|].
  split; [reflexivity | discriminate].
Qed.

(** ** Table bounds *)

Lemma find_bounds_no_header (header : str -> bool) (gesamt_lines : list str) (idx : nat) :
  Forall (fun line => header line = false) gesamt_lines ->
  find_bounds header gesamt_lines idx None = (None, None).
Proof.
  intros H. revert idx. induction H as [|l ls Hl _ IH]; intros idx; simpl; [done|].
  by rewrite Hl.
Qed.

Lemma alignment_body_no_header (header : str -> bool) (gesamt_lines : list str) :
  Forall (fun line => header line = false) gesamt_lines ->
  alignment_body header gesamt_lines = gesamt_lines.
Proof.
  intros H. unfold alignment_body. rewrite find_bounds_no_header by done.
  apply slice_all.
Qed.

(** C6, as the code has it. When no line is a table header for the selected
    parser, both table bounds stay [None], the slice [[None:None]] is the
    whole list, and every line of the input is parsed as a body line:
    taking the slice raises nothing. *)
Theorem missing_header_takes_all_lines (gesamt_lines : list str) :
  Forall (fun line => selected_header gesamt_lines line = false) gesamt_lines ->
  find_bounds (selected_header gesamt_lines) gesamt_lines O None = (None, None)
  /\ alignment_body (selected_header gesamt_lines) gesamt_lines = gesamt_lines
  /\ parse gesamt_lines =
       if two_queries gesamt_lines then
         proteins ← read_proteins pair_marker gesamt_lines;
         fields ← comprehension pair_fields gesamt_lines;
         rows ← comprehension (comprehension pair_normalize) fields;
         Ok (rows, proteins)
       else
         proteins ← read_proteins multi_marker gesamt_lines;
         rows ← comprehension multi_line gesamt_lines;
         Ok (rows, proteins).
Proof.
  intros H. split; [by apply find_bounds_no_header|].
  split; [by apply alignment_body_no_header|].
  unfold parse, selected_header in *.
  destruct (two_queries gesamt_lines).
  - unfold parse_two_queries. by rewrite alignment_body_no_header.
  - unfold parse_more_than_two_queries. by rewrite alignment_body_no_header.
Qed.

(** C6 fails as stated: without a header line the run does not abort; the
    only line is read as a body line and a label file is written. *)
Lemma missing_header_counterexample :
  Forall (fun line => selected_header (read_gesamt headless_report) line = false)
         (read_gesamt headless_report)
  /\ main (fun _ => true) headless_report (lit "out") (Some [lit "p"])
     = ([EOpen (lit "out/p.label");
         EWrite (lit "out/p.label") (label_line (lit "A:CYS:341") (lit "A:CYS:341"))],
        Ok ()).
Proof. split; [repeat constructor | reflexivity]. Qed.

Lemma missing_header_takes_all_lines_witness :
  find_bounds (selected_header (read_gesamt headless_report))
              (read_gesamt headless_report) O None = (None, None)
  /\ alignment_body (selected_header (read_gesamt headless_report))
                    (read_gesamt headless_report) = read_gesamt headless_report.
Proof.
  pose proof (missing_header_takes_all_lines (read_gesamt headless_report)) as H.
  destruct H as (H1 & H2 & _); [repeat constructor | by split].
Defined.

(** ** Flag stripping in the multi-way parser *)

Lemma before_first_absent (c : ascii) (s : str) : c ∉ s -> before_first c s = s.
Proof.
  induction s as [|a s IH]; intros Hc; simpl; [done|].
  apply not_elem_of_cons in Hc as [Hne Hc].
  rewrite bool_decide_eq_false_2 by congruence. f_equal. by apply IH.
Qed.

Lemma split_go_step (c a : ascii) (cur s : str) :
  Py.split_go [c] O cur (a :: s) =
    if bool_decide (a = c) then rev cur :: Py.split_go [c] O [] s
    else Py.split_go [c] O (a :: cur) s.
Proof.
  simpl. destruct (decide (a = c)) as [->|Hne].
  - by rewrite !bool_decide_eq_true_2.
  - rewrite (bool_decide_eq_false_2 (c = a)) by congruence.
    by rewrite (bool_decide_eq_false_2 (a = c)).
Qed.

Lemma split_go_first (c : ascii) (cur s : str) :
  Py.split_go [c] O cur s !! O = Some (rev cur ++ before_first c s).
Proof.
  revert cur. induction s as [|a s IH]; intros cur.
  - simpl. by rewrite app_nil_r.
  - rewrite split_go_step. simpl before_first. case_bool_decide.
    + simpl. by rewrite app_nil_r.
    + rewrite IH. simpl. by rewrite <- app_assoc.
Qed.

Lemma split_go_second (c : ascii) (cur s : str) :
  c ∈ s ->
  Py.split_go [c] O cur s !! 1%nat = Some (before_first c (after_first c s)).
Proof.
  revert cur. induction s as [|a s IH]; intros cur Hc; [by inversion Hc|].
  rewrite split_go_step. simpl after_first. case_bool_decide.
  - simpl. by rewrite split_go_first.
  - apply IH. by apply elem_of_cons in Hc as [->|Hc].
Qed.

Lemma strip_flag_eq (token : str) :
  strip_flag token =
    Ok (if decide ("|"%char ∈ token)
        then before_first "|"%char (after_first "|"%char token)
        else token).
Proof.
  unfold strip_flag. change PIPE with ["|"%char].
  destruct (decide ("|"%char ∈ token)) as [Hin|Hnin].
  - rewrite (proj2 (contains_char _ _) Hin).
    unfold Py.index, Py.split. by rewrite split_go_second.
  - destruct (Py.contains _ _) eqn:E; [|done].
    by apply contains_char in E.
Qed.

(** C5, as the code has it. Of a field of a multi-way body line that
    contains a ['|'], the text between its first ['|'] and its next ['|']
    (or its end, when there is no other) is kept; a field without ['|'] is
    kept unchanged.  A field with a single ['|'] thus keeps all the text
    after it: ["H|A:ASN 103"] becomes ["A:ASN 103"]. *)
Theorem flag_stripping (line : str) :
  comprehension strip_flag (multi_fields line)
  = Ok ((fun token =>
           if decide ("|"%char ∈ token)
           then before_first "|"%char (after_first "|"%char token)
           else token) <$> multi_fields line)
  /\ (forall token : str,
        "|"%char ∈ token -> "|"%char ∉ after_first "|"%char token ->
        strip_flag token = Ok (after_first "|"%char token))
  /\ strip_flag (lit "H|A:ASN 103") = Ok (lit "A:ASN 103").
Proof.
  split; [|split].
  - apply comprehension_total, Forall_forall. intros token _. apply strip_flag_eq.
  - intros token Hin Hnin. rewrite strip_flag_eq, decide_True by done.
    by rewrite before_first_absent.
  - reflexivity.
Qed.

Lemma flag_stripping_witness :
  strip_flag (lit "H|A:ASN 103") = Ok (after_first "|"%char (lit "H|A:ASN 103")).
Proof.
  apply (proj1 (proj2 (flag_stripping []))); by_decide.
Defined.

(** C5 fails as stated: a body line ending in ['|'] gives a field with two
    ['|'], of which only the text up to the second is kept. *)
Lemma flag_stripping_counterexample :
  multi_fields (lit "6.034 |*|H|A:ASN 103 |") = [lit "H|A:ASN 103 |"]
  /\ "|"%char ∈ lit "H|A:ASN 103 |"
  /\ strip_flag (lit "H|A:ASN 103 |") = Ok (lit "A:ASN 103 ")
  /\ strip_flag (lit "H|A:ASN 103 |") <> Ok (after_first "|"%char (lit "H|A:ASN 103 |")).
Proof.
  split; [reflexivity|]. split; [by_decide|].
  split; [reflexivity | discriminate].
Qed.

(** ** Dictionaries and records *)

Lemma eqb_eq (s t : str) : Py.eqb s t = true <-> s = t.
Proof. unfold Py.eqb. by rewrite bool_decide_eq_true. Qed.

Lemma eqb_neq (s t : str) : Py.eqb s t = false <-> s <> t.
Proof. unfold Py.eqb. by rewrite bool_decide_eq_false. Qed.

Lemma get_keys (k v : str) (d : dict) : Dict.get k d = Ok v -> k ∈ Dict.keys d.
Proof.
  induction d as [|[k' v'] d IH]; simpl; [done|].
  destruct (Py.eqb k k') eqn:E.
  - apply eqb_eq in E as ->. intros _. apply list_elem_of_here.
  - intros H. apply list_elem_of_further. by apply IH.
Qed.

Lemma keys_get (k : str) (d : dict) : k ∈ Dict.keys d -> exists v, Dict.get k d = Ok v.
Proof.
  induction d as [|[k' v'] d IH]; simpl; [by inversion 1|].
  intros Hk. destruct (Py.eqb k k') eqn:E; [by exists v'|].
  apply elem_of_cons in Hk as [->|Hk]; [|by apply IH].
  unfold Py.eqb in E. by rewrite bool_decide_eq_true_2 in E.
Qed.

Lemma set_fresh (k v : str) (d : dict) :
  k ∉ Dict.keys d -> Dict.set k v d = d ++ [(k, v)].
Proof.
  induction d as [|[k' v'] d IH]; simpl; [done|].
  intros [Hne Hk]%not_elem_of_cons.
  unfold Py.eqb. rewrite bool_decide_eq_false_2 by done.
  by rewrite IH.
Qed.

Lemma keys_set (k v : str) (d : dict) :
  Dict.keys (Dict.set k v d)
  = if decide (k ∈ Dict.keys d) then Dict.keys d else Dict.keys d ++ [k].
Proof.
  unfold Dict.keys. induction d as [|[k' v'] d IH]; [done|].
  cbn [Dict.set]. destruct (Py.eqb k k') eqn:E.
  - apply eqb_eq in E as ->. rewrite !fmap_cons. cbn [fst].
    rewrite decide_True; [done | apply list_elem_of_here].
  - assert (k <> k') as Hne by (intros ->; unfold Py.eqb in E;
      by rewrite bool_decide_eq_true_2 in E).
    rewrite !fmap_cons, IH. cbn [fst].
    destruct (decide (k ∈ d.*1)) as [Hin|Hnin].
    + rewrite decide_True; [done | by apply list_elem_of_further].
    + rewrite decide_False; [done|]. by intros [?|?]%elem_of_cons.
Qed.

Lemma get_set (k k' v : str) (d : dict) :
  Dict.get k' (Dict.set k v d) = if decide (k' = k) then Ok v else Dict.get k' d.
Proof.
  induction d as [|[k0 v0] d IH]; cbn [Dict.get Dict.set].
  - destruct (decide (k' = k)) as [->|Hne].
    + by rewrite (proj2 (eqb_eq k k)).
    + by rewrite (proj2 (eqb_neq k' k)).
  - destruct (Py.eqb k k0) eqn:E; cbn [Dict.get].
    + apply eqb_eq in E as ->. destruct (decide (k' = k0)) as [->|Hne].
      * by rewrite (proj2 (eqb_eq k0 k0)).
      * by rewrite (proj2 (eqb_neq k' k0)).
    + apply eqb_neq in E. rewrite IH.
      destruct (Py.eqb k' k0) eqn:E'; [|done].
      apply eqb_eq in E' as ->. by rewrite decide_False by done.
Qed.

Lemma get_zip (names row : list str) (i : nat) (S tok : str) :
  NoDup names -> names !! i = Some S -> row !! i = Some tok ->
  Dict.get S (zip names row) = Ok tok.
Proof.
  intros Hnd. revert row i. induction Hnd as [|S0 names Hnin Hnd IH];
    intros row i HS Htok; [done|].
  destruct row as [|tok0 row]; [done|]. destruct i as [|i]; simpl in *.
  - injection HS as ->. injection Htok as ->.
    unfold Py.eqb. by rewrite bool_decide_eq_true_2.
  - unfold Py.eqb. rewrite bool_decide_eq_false_2; [by eapply IH|].
    intros ->. apply Hnin. by eapply list_elem_of_lookup_2.
Qed.

(** The dict comprehension of [main], with pairwise distinct names: the
    row is paired with the first names, and there must be enough names. *)
Lemma row_dict_zip (proteins line : list str) (idx : nat) (d : dict) :
  NoDup proteins -> Dict.keys d = take idx proteins ->
  (idx + length line <= length proteins)%nat ->
  row_dict proteins idx line d
  = Ok (d ++ zip (take (length line) (drop idx proteins)) line).
Proof.
  intros Hnd. revert idx d. induction line as [|residue rest IH];
    intros idx d Hd Hlen; simpl in *.
  - by rewrite app_nil_r.
  - destruct (lookup_lt_is_Some_2 proteins idx) as [protein Hp]; [lia|].
    unfold Py.index. rewrite Hp. simpl.
    assert (protein ∉ Dict.keys d) as Hfresh.
    { rewrite Hd. intros (j & Hj)%list_elem_of_lookup_1.
      pose proof (lookup_lt_Some _ _ _ Hj) as Hlt. rewrite length_take in Hlt.
      rewrite lookup_take_lt in Hj by lia.
      pose proof (NoDup_lookup _ _ _ _ Hnd Hj Hp). lia. }
    rewrite set_fresh by done.
    rewrite IH; [| |lia].
    + rewrite <- app_assoc. simpl. do 2 f_equal.
      rewrite (drop_S _ _ _ Hp). done.
    + unfold Dict.keys in *. rewrite fmap_app, Hd. simpl.
      by rewrite (take_S_r _ _ _ Hp).
Qed.

Lemma row_dict_Ok_length (proteins line : list str) (idx : nat) (d d' : dict) :
  row_dict proteins idx line d = Ok d' -> line <> [] ->
  (idx + length line <= length proteins)%nat.
Proof.
  revert idx d. induction line as [|residue rest IH]; intros idx d H Hne; [done|].
  simpl in *. unfold Py.index in H.
  destruct (proteins !! idx) as [protein|] eqn:Hp; [|done]. simpl in H.
  apply lookup_lt_Some in Hp.
  destruct rest as [|r rest]; [simpl; lia|].
  apply IH in H; [|done]. simpl in *. lia.
Qed.

(** ** The generic label *)

Lemma or_none_eq (d : dict) (k : str) :
  k ∈ Dict.keys d -> or_none d k = Ok (none_if_empty (token d k)).
Proof.
  intros (v & Hv)%keys_get. unfold or_none, token, none_if_empty.
  rewrite Hv. simpl. by destruct v.
Qed.

(** Adding the generic label to a record never raises. *)
Lemma add_generic_eq (d : dict) :
  add_generic d = Ok (Dict.set GENERIC (generic_of (Dict.keys d) (token d)) d).
Proof.
  unfold add_generic, generic_of.
  rewrite (comprehension_total _ (fun k => none_if_empty (token d k))); [done|].
  apply Forall_forall. intros k Hk. by apply or_none_eq.
Qed.

Lemma record_of_row (names row : list str) :
  NoDup names -> length row = length names ->
  row_dict names O row [] = Ok (zip names row).
Proof.
  intros Hnd Hlen. rewrite row_dict_zip; [|done|done|simpl; lia].
  rewrite drop_0, Hlen, firstn_all. done.
Qed.

Lemma generic_of_ext (names : list str) (f g : str -> str) :
  (forall S, S ∈ names -> f S = g S) -> generic_of names f = generic_of names g.
Proof.
  intros H. unfold generic_of. f_equal. apply list_fmap_ext.
  intros i S HS. f_equal. apply H. by eapply list_elem_of_lookup_2.
Qed.

Lemma keys_zip (names row : list str) :
  length row = length names -> Dict.keys (zip names row) = names.
Proof. intros H. unfold Dict.keys. apply fst_zip. lia. Qed.

Lemma token_zip_positional (names row : list str) :
  NoDup names -> positional names row (token (zip names row)).
Proof.
  intros Hnd i S tok HS Htok. unfold token.
  by rewrite (get_zip names row i S tok).
Qed.

Lemma add_generic_zip (names row : list str) (token_of : str -> str) :
  NoDup names -> length row = length names -> positional names row token_of ->
  add_generic (zip names row)
  = Ok (Dict.set GENERIC (generic_of names token_of) (zip names row)).
Proof.
  intros Hnd Hlen Hpos. rewrite add_generic_eq, keys_zip by done.
  do 2 f_equal. apply generic_of_ext. intros S (i & HS)%list_elem_of_lookup_1.
  destruct (lookup_lt_is_Some_2 row i) as [tok Htok].
  { rewrite Hlen. by eapply lookup_lt_Some. }
  rewrite (Hpos i S tok HS Htok).
  by apply (token_zip_positional names row Hnd i S tok).
Qed.

(** C3, as the code has it. When the structure names are pairwise distinct
    and every row has one token per name, the records are built without an
    exception and the [generic_resname] of each is the ['-']-join, over
    the structure names in order, of the token at each name's position in
    the row, an empty token being replaced by ["None"]. *)
Theorem generic_label (names : list str) (rows : list (list str)) :
  NoDup names ->
  Forall (fun row => length row = length names) rows ->
  exists records : list dict,
    assemble names rows = Ok records
    /\ Forall2 (fun row R =>
         forall token_of : str -> str,
           positional names row token_of ->
           Dict.get GENERIC R = Ok (generic_of names token_of))
       rows records.
Proof.
  intros Hnd Hrows.
  exists ((fun row => Dict.set GENERIC (generic_of names (token (zip names row)))
                               (zip names row)) <$> rows).
  split.
  - unfold assemble.
    rewrite (comprehension_total _ (zip names)).
    + simpl. apply comprehension_Ok, Forall2_fmap, Forall_Forall2_diag.
      eapply Forall_impl; [exact Hrows|]. intros row Hlen. simpl.
      apply add_generic_zip; [done|done|by apply token_zip_positional].
    + eapply Forall_impl; [exact Hrows|]. intros row Hlen.
      by apply record_of_row.
  - apply Forall2_fmap_r, Forall_Forall2_diag.
    eapply Forall_impl; [exact Hrows|]. intros row Hlen token_of Hpos.
    rewrite get_set, decide_True by done. f_equal.
    apply generic_of_ext. intros S (i & HS)%list_elem_of_lookup_1.
    destruct (lookup_lt_is_Some_2 row i) as [tok Htok].
    { rewrite Hlen. by eapply lookup_lt_Some. }
    rewrite (Hpos i S tok HS Htok).
    by apply (token_zip_positional names row Hnd i S tok).
Qed.

Lemma generic_label_witness :
  exists records : list dict,
    assemble [lit "foo1"; lit "foo2"] [[[]; lit "A:LEU:66"]] = Ok records
    /\ Forall2 (fun row R =>
         forall token_of : str -> str,
           positional [lit "foo1"; lit "foo2"] row token_of ->
           Dict.get GENERIC R = Ok (generic_of [lit "foo1"; lit "foo2"] token_of))
       [[[]; lit "A:LEU:66"]] records.
Proof.
  apply (generic_label [lit "foo1"; lit "foo2"] [[[]; lit "A:LEU:66"]]).
  - by_decide.
  - repeat constructor.
Defined.

(** C3 fails as stated: with the same name given twice the record has one
    key for both columns, and its generic label has one part where the
    structure names have two. *)
Lemma generic_label_counterexample :
  assemble [lit "a"; lit "a"] [[lit "A:LEU:75"; lit "A:LEU:65"]]
  = Ok [[(lit "a", lit "A:LEU:65"); (GENERIC, lit "A:LEU:65")]]
  /\ generic_of [lit "a"; lit "a"]
       (token [(lit "a", lit "A:LEU:65"); (GENERIC, lit "A:LEU:65")])
     = lit "A:LEU:65-A:LEU:65"
  /\ Dict.get GENERIC [(lit "a", lit "A:LEU:65"); (GENERIC, lit "A:LEU:65")]
     <> Ok (generic_of [lit "a"; lit "a"]
              (token [(lit "a", lit "A:LEU:65"); (GENERIC, lit "A:LEU:65")])).
Proof. split; [reflexivity|]. split; [reflexivity | discriminate]. Qed.

(** ** The label writer *)

Lemma io_bind_lift_Ok {A B} (a : A) (f : A -> io B) : io_bind (lift (Ok a)) f = f a.
Proof. unfold io_bind, lift. by destruct (f a). Qed.

Lemma io_bind_ret {A B} (a : A) (f : A -> io B) : io_bind (io_ret a) f = f a.
Proof. apply io_bind_lift_Ok. Qed.

Lemma io_bind_lift_Raise {A B} (e : exn) (f : A -> io B) :
  io_bind (lift (Raise e)) f = ([], Raise e).
Proof. done. Qed.

Lemma io_bind_emit {B} (e : event) (f : unit -> io B) :
  io_bind (emit e) f = (e :: (f ()).1, (f ()).2).
Proof. unfold io_bind, emit. by destruct (f ()). Qed.

Lemma io_bind_Ok {A B} (m : io A) (f : A -> io B) (t : list event) (b : B) :
  io_bind m f = (t, Ok b) ->
  exists t1 a t2, m = (t1, Ok a) /\ f a = (t2, Ok b) /\ t = t1 ++ t2.
Proof.
  destruct m as [t1 [a|e]]; simpl; [|done].
  destruct (f a) as [t2 r] eqn:E. intros [= <- ->]. by exists t1, a, t2.
Qed.

Section Writer.

Variable can_open : str -> bool.

Lemma write_lines_cons (path S : str) (R : dict) (records : list dict) :
  write_lines path S (R :: records) =
    match Dict.get S R with
    | Raise e => ([], Raise e)
    | Ok tok =>
        if decide (tok = []) then write_lines path S records
        else match Dict.get GENERIC R with
             | Raise e => ([], Raise e)
             | Ok generic =>
                 (EWrite path (label_line tok generic)
                    :: (write_lines path S records).1,
                  (write_lines path S records).2)
             end
    end.
Proof.
  cbn [write_lines]. destruct (Dict.get S R) as [tok|e] eqn:E; [|done].
  rewrite io_bind_lift_Ok. destruct tok as [|c tok].
  - simpl length. cbn [Nat.eqb]. rewrite io_bind_ret. by rewrite decide_True.
  - simpl length. cbn [Nat.eqb]. rewrite decide_False by done.
    rewrite io_bind_lift_Ok.
    destruct (Dict.get GENERIC R) as [generic|e]; [|done].
    rewrite io_bind_lift_Ok, io_bind_emit. done.
Qed.

(** Every event of the loop over the records is a write to [path]. *)
Lemma write_lines_trace (path S : str) (records : list dict) :
  exists datas, (write_lines path S records).1 = EWrite path <$> datas.
Proof.
  induction records as [|R records [datas IH]]; [by exists []|].
  rewrite write_lines_cons.
  destruct (Dict.get S R) as [tok|e]; [|by exists []].
  destruct (decide (tok = [])); [by exists datas|].
  destruct (Dict.get GENERIC R) as [generic|e]; [|by exists []].
  exists (label_line tok generic :: datas). simpl. by rewrite IH.
Qed.

(** When the loop over the records ends without an exception, it has
    written the lines of the label file, and every record has the key. *)
Lemma write_lines_Ok (path S : str) (records : list dict) (t : list event) :
  write_lines path S records = (t, Ok ()) ->
  t = EWrite path <$> label_lines S records
  /\ Forall (fun R => S ∈ Dict.keys R) records.
Proof.
  revert t. induction records as [|R records IH]; intros t.
  - by intros [= <-].
  - rewrite write_lines_cons. unfold label_lines. rewrite filter_cons.
    destruct (Dict.get S R) as [tok|e] eqn:E; [|done].
    pose proof (get_keys _ _ _ E) as Hk.
    assert (token R S = tok) as HT by (unfold token; by rewrite E).
    rewrite HT.
    destruct (decide (tok = [])) as [->|Hne].
    + intros [-> HF]%IH. rewrite decide_False by (intros H; by apply H).
      split; [done | by constructor].
    + rewrite decide_True by done.
      destruct (Dict.get GENERIC R) as [generic|e] eqn:EG; [|done].
      destruct (write_lines path S records) as [t' r'] eqn:E'. simpl.
      intros [= <- ->]. destruct (IH t' eq_refl) as [-> HF].
      split; [|by constructor].
      rewrite HT. unfold token at 1. by rewrite EG.
Qed.

Lemma write_labels_cons (output_path protein : str) (proteins : list str)
    (records : list dict) :
  write_labels can_open output_path (protein :: proteins) records =
    let path := label_path output_path protein in
    if can_open path then
      match (write_lines path protein records).2 with
      | Ok _ =>
          (EOpen path :: (write_lines path protein records).1
             ++ (write_labels can_open output_path proteins records).1,
           (write_labels can_open output_path proteins records).2)
      | Raise e => (EOpen path :: (write_lines path protein records).1, Raise e)
      end
    else ([], Raise OSError).
Proof.
  cbn [write_labels]. cbv zeta. destruct (can_open _); [|done].
  rewrite io_bind_emit.
  destruct (write_lines _ protein records) as [t1 [[]|e]]; simpl; [|done].
  by destruct (write_labels _ _ _ _).
Qed.

(** When the loop over the names ends without an exception, every file
    could be opened and was written in full, in the order of the names. *)
Lemma write_labels_Ok (output_path : str) (proteins : list str)
    (records : list dict) (t : list event) :
  write_labels can_open output_path proteins records = (t, Ok ()) ->
  t = (proteins ≫= fun S =>
         EOpen (label_path output_path S)
           :: (EWrite (label_path output_path S) <$> label_lines S records))
  /\ Forall (fun S => Forall (fun R => S ∈ Dict.keys R) records) proteins.
Proof.
  revert t. induction proteins as [|S proteins IH]; intros t.
  - by intros [= <-].
  - rewrite write_labels_cons. cbv zeta. destruct (can_open _); [|done].
    destruct (write_lines _ S records) as [t1 [[]|e]] eqn:E1; simpl; [|done].
    destruct (write_labels _ _ proteins records) as [t2 r2] eqn:E2. simpl.
    intros [= <- ->]. apply write_lines_Ok in E1 as [-> HF].
    destruct (IH t2 eq_refl) as [-> HF'].
    split; [done | by constructor].
Qed.

End Writer.

(** ** Replaying the trace on the file system *)

Lemma run_trace_app (t1 t2 : list event) (fs : gmap str str) :
  run_trace (t1 ++ t2) fs = run_trace t2 (run_trace t1 fs).
Proof. apply foldl_app. Qed.

Lemma run_writes (path cur : str) (datas : list str) (fs : gmap str str) :
  fs !! path = Some cur ->
  run_trace (EWrite path <$> datas) fs = <[path := cur ++ concat datas]> fs.
Proof.
  revert cur fs. induction datas as [|data datas IH]; intros cur fs Hcur; simpl.
  - rewrite app_nil_r. by rewrite insert_id.
  - unfold run_trace in *. rewrite Hcur. simpl.
    rewrite (IH (cur ++ data)) by apply lookup_insert_eq.
    by rewrite insert_insert_eq, <- app_assoc.
Qed.

(** Opening a file and writing to it leaves the concatenation of what was
    written, whatever the file held before. *)
Lemma run_block (path : str) (datas : list str) (fs : gmap str str) :
  run_trace (EOpen path :: (EWrite path <$> datas)) fs = <[path := concat datas]> fs.
Proof.
  change (run_trace (EWrite path <$> datas) (<[path := []]> fs) = <[path:=concat datas]> fs).
  rewrite (run_writes path []) by apply lookup_insert_eq.
  by rewrite insert_insert_eq.
Qed.

Lemma label_path_inj (output_path S S' : str) :
  label_path output_path S = label_path output_path S' -> S = S'.
Proof.
  unfold label_path. intros H. apply app_inv_head in H.
  apply app_inv_head in H. by apply app_inv_tail in H.
Qed.

Lemma run_blocks (output_path : str) (names : list str) (records : list dict)
    (fs : gmap str str) :
  run_trace (names ≫= fun S =>
               EOpen (label_path output_path S)
                 :: (EWrite (label_path output_path S) <$> label_lines S records)) fs
  = foldl (fun fs S => <[label_path output_path S := label_file S records]> fs) fs names.
Proof.
  revert fs. induction names as [|S names IH]; intros fs; [done|].
  rewrite bind_cons, run_trace_app, run_block, IH. done.
Qed.

Lemma lookup_blocks (output_path : str) (names : list str) (records : list dict)
    (fs : gmap str str) (S : str) :
  S ∈ names ->
  foldl (fun fs S => <[label_path output_path S := label_file S records]> fs) fs names
    !! label_path output_path S = Some (label_file S records).
Proof.
  induction names as [|S' names IH] using rev_ind; [by inversion 1|].
  intros Hin. rewrite foldl_app. simpl.
  destruct (decide (S' = S)) as [->|Hne]; [apply lookup_insert_eq|].
  rewrite lookup_insert_ne by (by intros ?%label_path_inj).
  apply IH. apply elem_of_app in Hin as [Hin|Hin%list_elem_of_singleton]; [done|].
  by subst.
Qed.

(** What a run of [main] that ends without an exception went through. *)
Lemma main_Ok (can_open : str -> bool) (raw_lines : list str) (output_path : str)
    (input_proteins : option (list str)) (t : list event) :
  main can_open raw_lines output_path input_proteins = (t, Ok ()) ->
  exists rows parsed_names records,
    parse (read_gesamt raw_lines) = Ok (rows, parsed_names)
    /\ assemble (default parsed_names input_proteins) rows = Ok records
    /\ write_labels can_open output_path (default parsed_names input_proteins) records
       = (t, Ok ()).
Proof.
  unfold main. intros (t1 & [rows parsed_names] & t2 & Hp & Hl & ->)%io_bind_Ok.
  injection Hp as <- Hp. unfold label_files in Hl.
  apply io_bind_Ok in Hl as (t3 & records & t4 & Ha & Hw & ->).
  injection Ha as <- Ha. by exists rows, parsed_names, records.
Qed.

(** C2. After a run of [main] that ends without an exception, the label
    file of every structure name [S] holds exactly, in the order of the
    records, one line [token TAB generic TAB NEWLINE] for each record whose
    token for [S] is not empty, and nothing for the others. *)
Theorem label_writer_output (can_open : str -> bool) (raw_lines : list str)
    (output_path : str) (input_proteins : option (list str)) (t : list event) :
  main can_open raw_lines output_path input_proteins = (t, Ok ()) ->
  exists (rows : list (list str)) (parsed_names : list str) (records : list dict),
    parse (read_gesamt raw_lines) = Ok (rows, parsed_names)
    /\ assemble (default parsed_names input_proteins) rows = Ok records
    /\ forall S : str,
         S ∈ default parsed_names input_proteins ->
         Forall (fun R => S ∈ Dict.keys R) records
         /\ forall fs : gmap str str,
              run_trace t fs !! label_path output_path S
              = Some (concat ((fun R => token R S ++ TAB ++ token R GENERIC ++ TAB ++ NL)
                                <$> filter (fun R => token R S <> []) records)).
Proof.
  intros (rows & parsed_names & records & Hp & Ha & Hw)%main_Ok.
  exists rows, parsed_names, records. split; [done|]. split; [done|].
  apply write_labels_Ok in Hw as [-> HF]. intros S HS. split.
  - by apply (proj1 (Forall_forall _ _) HF).
  - intros fs. rewrite run_blocks. by apply lookup_blocks.
Qed.

Lemma label_writer_output_witness :
  exists (rows : list (list str)) (parsed_names : list str) (records : list dict),
    parse (read_gesamt pairwise_report) = Ok (rows, parsed_names)
    /\ assemble (default parsed_names None) rows = Ok records
    /\ forall S : str,
         S ∈ default parsed_names None ->
         Forall (fun R => S ∈ Dict.keys R) records
         /\ forall fs : gmap str str,
              run_trace (main (fun _ => true) pairwise_report (lit "out") None).1 fs
                !! label_path (lit "out") S
              = Some (concat ((fun R => token R S ++ TAB ++ token R GENERIC ++ TAB ++ NL)
                                <$> filter (fun R => token R S <> []) records)).
Proof.
  apply (label_writer_output (fun _ => true) pairwise_report (lit "out") None).
  vm_compute. reflexivity.
Defined.

(** ** The number of columns *)

Lemma assemble_Ok (names : list str) (rows : list (list str)) (records : list dict) :
  assemble names rows = Ok records ->
  Forall2 (fun row R => exists d, row_dict names O row [] = Ok d /\ add_generic d = Ok R)
          rows records.
Proof.
  unfold assemble. intros (ds & Hds & HR)%bind_Ok.
  apply comprehension_Ok in Hds. apply comprehension_Ok in HR.
  revert records HR. induction Hds as [|row d rows ds Hd _ IH]; intros records HR.
  - inversion HR. constructor.
  - inversion HR as [|? R ? records' HR1 HR2]; subst.
    constructor; [by exists d | by apply IH].
Qed.

(** A record that has a key for each of the pairwise distinct names comes
    from a row with one token per name. *)
Lemma row_width (names row : list str) (d R : dict) :
  NoDup names -> GENERIC ∉ names ->
  row_dict names O row [] = Ok d -> add_generic d = Ok R ->
  (forall S, S ∈ names -> S ∈ Dict.keys R) ->
  length row = length names.
Proof.
  intros Hnd Hg Hd HR Hkeys.
  assert (length row <= length names)%nat as Hle.
  { destruct row as [|tok row]; [simpl; lia|].
    by apply (row_dict_Ok_length names (tok :: row) O [] d). }
  rewrite row_dict_zip in Hd by done. injection Hd as <-.
  rewrite add_generic_eq in HR. injection HR as <-.
  rewrite drop_0 in Hkeys. simpl in Hkeys.
  assert (forall S, S ∈ names -> S ∈ take (length row) names) as Hsub.
  { intros S HS. specialize (Hkeys S HS). rewrite keys_set in Hkeys.
    rewrite keys_zip in Hkeys by (rewrite length_take; lia).
    case_decide; [done|].
    apply elem_of_app in Hkeys as [?|Heq%list_elem_of_singleton]; [done|].
    by subst. }
  apply NoDup_submseteq in Hsub; [|done].
  apply submseteq_length in Hsub. rewrite length_take in Hsub. lia.
Qed.

(** X4. The rows of the pairwise parser have two tokens, whatever the number
    of structure names read or given. *)
Lemma pair_rows_width (gesamt_lines : list str) (rows : list (list str))
    (proteins : list str) :
  parse_two_queries gesamt_lines = Ok (rows, proteins) ->
  Forall (fun row => length row = 2%nat) rows.
Proof.
  unfold parse_two_queries. intros (names & _ & H)%bind_Ok.
  apply bind_Ok in H as (fields & Hf & H).
  apply bind_Ok in H as (rows' & Hr & [= <- _]).
  apply comprehension_Ok in Hf. apply comprehension_Ok in Hr.
  apply Forall_forall. intros row (i & Hi)%list_elem_of_lookup_1.
  destruct (Forall2_lookup_r _ _ _ _ _ Hr Hi) as (field & Hfi & Hn).
  destruct (Forall2_lookup_r _ _ _ _ _ Hf Hfi) as (line & _ & Hl).
  apply comprehension_length in Hn. apply comprehension_length in Hl.
  rewrite Hn, Hl. done.
Qed.

(** C7, as the code has it. The parsers do not compare the number of
    tokens of a row with the number of names; but in every run of [main]
    that ends without an exception, with pairwise distinct structure names
    none of which is ["generic_resname"], every parsed row has as many
    tokens as there are structure names after the [--proteins] override. *)
Theorem column_count (can_open : str -> bool) (raw_lines : list str)
    (output_path : str) (input_proteins : option (list str)) (t : list event)
    (rows : list (list str)) (parsed_names : list str) :
  parse (read_gesamt raw_lines) = Ok (rows, parsed_names) ->
  main can_open raw_lines output_path input_proteins = (t, Ok ()) ->
  NoDup (default parsed_names input_proteins) ->
  GENERIC ∉ default parsed_names input_proteins ->
  Forall (fun row => length row = length (default parsed_names input_proteins)) rows.
Proof.
  intros Hp (rows' & parsed' & records & Hp' & Ha & Hw)%main_Ok Hnd Hg.
  rewrite Hp in Hp'. injection Hp' as <- <-.
  apply write_labels_Ok in Hw as [_ HF]. apply assemble_Ok in Ha.
  apply Forall_forall. intros row (i & Hi)%list_elem_of_lookup_1.
  destruct (Forall2_lookup_l _ _ _ _ _ Ha Hi) as (R & HR & d & Hd & Hadd).
  apply (row_width _ row d R); try done.
  intros S HS. apply (proj1 (Forall_forall _ _) HF) in HS.
  apply (proj1 (Forall_forall _ _) HS). by eapply list_elem_of_lookup_2.
Qed.

Lemma column_count_witness :
  Forall (fun row => length row = length (default [lit "foo1"; lit "foo2"] (Some [lit "alpha"; lit "beta"])))
         [[lit "A:LEU:75"; lit "A:LEU:65"]].
Proof.
  apply (column_count (fun _ => true) pairwise_report (lit "out")
           (Some [lit "alpha"; lit "beta"])
           (main (fun _ => true) pairwise_report (lit "out")
                 (Some [lit "alpha"; lit "beta"])).1).
  - vm_compute. reflexivity.
  - vm_compute. reflexivity.
  - by_decide.
  - by_decide.
Defined.

(** C7 fails as stated: the pairwise parser returns rows of two tokens,
    and [--proteins a b c] gives three names; the run ends in a [KeyError]
    after two label files were written. *)
Lemma column_count_counterexample :
  parse (read_gesamt pairwise_report)
  = Ok ([[lit "A:LEU:75"; lit "A:LEU:65"]], [lit "foo1"; lit "foo2"])
  /\ ~ Forall (fun row => length row
                 = length (default [lit "foo1"; lit "foo2"]
                                   (Some [lit "a"; lit "b"; lit "c"])))
              [[lit "A:LEU:75"; lit "A:LEU:65"]]
  /\ (main (fun _ => true) pairwise_report (lit "out")
           (Some [lit "a"; lit "b"; lit "c"])).2 = Raise KeyError.
Proof.
  split; [reflexivity|]. split; [|reflexivity].
  intros H. apply Forall_inv in H. discriminate.
Qed.

(** ** Running the pipeline twice *)

Lemma well_opened_mono (open open' : gset str) (t : list event) :
  open ⊆ open' -> well_opened open t -> well_opened open' t.
Proof.
  revert open open'. induction t as [|[path|path data] t IH]; intros open open' Hsub; simpl.
  - done.
  - apply IH. by apply union_mono_l.
  - intros [Hin Ht]. split; [by apply Hsub | by eapply IH].
Qed.

Lemma well_opened_app (open : gset str) (t1 t2 : list event) :
  well_opened open t1 -> well_opened open t2 -> well_opened open (t1 ++ t2).
Proof.
  revert open. induction t1 as [|[path|path data] t1 IH]; intros open; simpl.
  - done.
  - intros H1 H2. apply IH; [done|].
    eapply well_opened_mono; [|exact H2]. apply union_subseteq_r.
  - intros [Hin H1] H2. split; [done | by apply IH].
Qed.

Lemma well_opened_writes (open : gset str) (path : str) (datas : list str) :
  path ∈ open -> well_opened open (EWrite path <$> datas).
Proof. intros Hin. induction datas; simpl; [done | by split]. Qed.

Lemma io_bind_lift_trace {A B} (r : result A) (f : A -> io B) :
  (io_bind (lift r) f).1 = match r with Ok a => (f a).1 | Raise _ => [] end.
Proof. destruct r as [a|e]; [|done]. by rewrite io_bind_lift_Ok. Qed.

Lemma write_labels_well_opened (can_open : str -> bool) (output_path : str)
    (proteins : list str) (records : list dict) (open : gset str) :
  well_opened open (write_labels can_open output_path proteins records).1.
Proof.
  revert open. induction proteins as [|S proteins IH]; intros open; [done|].
  rewrite write_labels_cons. cbv zeta. destruct (can_open _); [|done].
  destruct (write_lines_trace (label_path output_path S) S records) as [datas Hd].
  assert (well_opened ({[label_path output_path S]} ∪ open)
            (write_lines (label_path output_path S) S records).1) as Hw.
  { rewrite Hd. apply well_opened_writes, elem_of_union_l, elem_of_singleton. done. }
  destruct (write_lines _ S records).2; simpl; [|done].
  by apply well_opened_app.
Qed.

Lemma main_well_opened (can_open : str -> bool) (raw_lines : list str)
    (output_path : str) (input_proteins : option (list str)) :
  well_opened ∅ (main can_open raw_lines output_path input_proteins).1.
Proof.
  unfold main. rewrite io_bind_lift_trace.
  destruct (parse _) as [[rows parsed_names]|e]; [|done].
  unfold label_files. rewrite io_bind_lift_trace.
  destruct (assemble _ _) as [records|e]; [|done].
  apply write_labels_well_opened.
Qed.

(** What a trace does to the files it opens does not depend on what was
    there before. *)
Lemma run_trace_union (t : list event) (g fs : gmap str str) :
  well_opened (dom g) t -> run_trace t (g ∪ fs) = run_trace t g ∪ fs.
Proof.
  revert g. induction t as [|[path|path data] t IH]; intros g; simpl.
  - done.
  - intros Ht. unfold run_trace in *. simpl.
    rewrite insert_union_l. apply IH. by rewrite dom_insert_L.
  - intros [Hin Ht]. unfold run_trace in *. simpl.
    apply elem_of_dom in Hin as [cur Hcur].
    rewrite (lookup_union_Some_l _ _ _ _ Hcur), Hcur.
    rewrite insert_union_l. apply IH.
    rewrite dom_insert_L.
    replace ({[path]} ∪ dom g) with (dom g); [done|].
    apply set_eq. intros x. rewrite elem_of_union, elem_of_singleton.
    split; [by right|]. intros [->|?]; [|done]. apply elem_of_dom. by exists cur.
Qed.

Lemma run_trace_twice (t : list event) (fs : gmap str str) :
  well_opened ∅ t -> run_trace t (run_trace t fs) = run_trace t fs.
Proof.
  intros Ht.
  assert (forall fs', run_trace t fs' = run_trace t ∅ ∪ fs') as Hrun.
  { intros fs'. rewrite <- (run_trace_union t ∅ fs') by (by rewrite dom_empty_L).
    by rewrite (left_id_L ∅ (∪)). }
  rewrite (Hrun fs), (Hrun (run_trace t ∅ ∪ fs)).
  by rewrite (assoc_L (∪)), (idemp_L (∪)).
Qed.

(** C8. Two runs of [main] on the same input lines and arguments do the
    same file operations and end the same way, and the second run leaves
    every file as the first run left it; the canonical token is a function
    of the residue descriptor in both parsers. *)
Theorem pipeline_idempotent (can_open : str -> bool) (raw_lines : list str)
    (output_path : str) (input_proteins : option (list str))
    (t1 t2 : list event) (r1 r2 : result unit) (fs : gmap str str) :
  main can_open raw_lines output_path input_proteins = (t1, r1) ->
  main can_open raw_lines output_path input_proteins = (t2, r2) ->
  t1 = t2 /\ r1 = r2
  /\ run_trace t2 (run_trace t1 fs) = run_trace t1 fs
  /\ (forall token out1 out2 : str,
        pair_normalize token = Ok out1 -> pair_normalize token = Ok out2 -> out1 = out2)
  /\ (forall token out1 out2 : str,
        multi_normalize token = Ok out1 -> multi_normalize token = Ok out2 -> out1 = out2).
Proof.
  intros H1 H2. rewrite H1 in H2. injection H2 as <- <-.
  split; [done|]. split; [done|]. split.
  - apply run_trace_twice.
    pose proof (main_well_opened can_open raw_lines output_path input_proteins) as H.
    by rewrite H1 in H.
  - split; intros token out1 out2 E1 E2; congruence.
Qed.

Lemma pipeline_idempotent_witness :
  run_trace (main (fun _ => true) pairwise_report (lit "out") None).1
    (run_trace (main (fun _ => true) pairwise_report (lit "out") None).1
               {[ lit "out/foo1.label" := lit "stale" ]})
  = run_trace (main (fun _ => true) pairwise_report (lit "out") None).1
              {[ lit "out/foo1.label" := lit "stale" ]}.
Proof.
  destruct (pipeline_idempotent (fun _ => true) pairwise_report (lit "out") None
              (main (fun _ => true) pairwise_report (lit "out") None).1
              (main (fun _ => true) pairwise_report (lit "out") None).1
              (main (fun _ => true) pairwise_report (lit "out") None).2
              (main (fun _ => true) pairwise_report (lit "out") None).2
              {[ lit "out/foo1.label" := lit "stale" ]})
    as (_ & _ & H & _); [vm_compute; reflexivity | vm_compute; reflexivity | exact H].
Defined.

(** ** Structure names and label paths *)






Lemma parse_names (gesamt_lines : list str) (rows : list (list str)) (proteins : list str) :
  parse gesamt_lines = Ok (rows, proteins) ->
  read_proteins (if two_queries gesamt_lines then pair_marker else multi_marker)
                gesamt_lines = Ok proteins.
Proof.
  unfold parse. destruct (two_queries _).
  - unfold parse_two_queries. intros (names & Hn & H)%bind_Ok.
    apply bind_Ok in H as (fields & _ & H).
    apply bind_Ok in H as (rows' & _ & [= _ <-]). done.
  - unfold parse_more_than_two_queries. intros (names & Hn & H)%bind_Ok.
    apply bind_Ok in H as (rows' & _ & [= _ <-]). done.
Qed.



Example nested_report_opened :
  opened (main (fun _ => true) nested_report (lit "out") None).1
  = [lit "out/dir/foo1.label"; lit "out/foo2.label"].
Proof. reflexivity. Qed.


Lemma pairwise_normalization_witness :
  (exists descriptors : list (list str),
      comprehension pair_fields (alignment_body pair_header (read_gesamt pairwise_report))
        = Ok descriptors
      /\ Forall2 (Forall2 canonical) descriptors [[lit "A:LEU:75"; lit "A:LEU:65"]])
  /\ canonical (lit "H- A:LEU  75") (lit "A:LEU:75")
  /\ canonical [] [].
Proof.
  apply (pairwise_normalization (read_gesamt pairwise_report)
           [[lit "A:LEU:75"; lit "A:LEU:65"]] [lit "foo1"; lit "foo2"]).
  vm_compute. reflexivity.
Defined.

Lemma format_detection_witness :
  main (fun _ => true) pairwise_report (lit "out") None
  = io_bind (lift (parse_two_queries (read_gesamt pairwise_report)))
            (label_files (fun _ => true) (lit "out") None).
Proof.
  apply (proj1 (proj2 (format_detection (fun _ => true) pairwise_report (lit "out") None))).
  left. apply contains_spec. vm_compute. reflexivity.
Defined.

Lemma unquoted_marker_aborts_witness :
  Py.index (Py.split QUOTE (lit "... reading file foo1.pdb")) 1 = Raise IndexError
  /\ main (fun _ => true) [lit "... reading file foo1.pdb"] (lit "out") None
     = ([], Raise IndexError).
Proof.
  apply (unquoted_marker_aborts (fun _ => true) [lit "... reading file foo1.pdb"]
           (lit "out") None (lit "... reading file foo1.pdb")).
  - by_decide.
  - vm_compute. reflexivity.
  - vm_compute. reflexivity.
Defined.

(** ** The scenarios of the specification *)

Example pairwise_scenario :
  main (fun _ => true) pairwise_report (lit "out") None
  = ([EOpen (lit "out/foo1.label");
      EWrite (lit "out/foo1.label")
             (label_line (lit "A:LEU:75") (lit "A:LEU:75-A:LEU:65"));
      EOpen (lit "out/foo2.label");
      EWrite (lit "out/foo2.label")
             (label_line (lit "A:LEU:65") (lit "A:LEU:75-A:LEU:65"))],
     Ok ()).
Proof. reflexivity. Qed.

Example multiway_scenario :
  parse (read_gesamt multiway_report)
  = Ok ([[lit "A:CYS:341"; lit "A:MET:456"; []];
         [lit "A:CYS:341"; lit "A:ASN:103"; lit "D:LEU:559"]],
        [lit "foo1"; lit "foo2"; lit "foo3"])
  /\ run_trace (main (fun _ => true) multiway_report (lit "out") None).1 ∅
       !! lit "out/foo3.label"
     = Some (label_line (lit "D:LEU:559") (lit "A:CYS:341-A:ASN:103-D:LEU:559"))
  /\ run_trace (main (fun _ => true) multiway_report (lit "out") None).1 ∅
       !! lit "out/foo1.label"
     = Some (label_line (lit "A:CYS:341") (lit "A:CYS:341-A:MET:456-None")
             ++ label_line (lit "A:CYS:341") (lit "A:CYS:341-A:ASN:103-D:LEU:559")).
Proof. split; [reflexivity|]. split; by vm_compute. Qed.

Example override_scenario :
  opened (main (fun _ => true) pairwise_report (lit "out")
               (Some [lit "alpha"; lit "beta"])).1
  = [lit "out/alpha.label"; lit "out/beta.label"].
Proof. reflexivity. Qed.

(** A run can end without an exception with fewer tokens in a row than
    names, when a name is repeated or is ["generic_resname"]. *)
Example repeated_name_run :
  main (fun _ => true) headless_report (lit "out") (Some [lit "p"; lit "p"])
  = ([EOpen (lit "out/p.label");
      EWrite (lit "out/p.label") (label_line (lit "A:CYS:341") (lit "A:CYS:341"));
      EOpen (lit "out/p.label");
      EWrite (lit "out/p.label") (label_line (lit "A:CYS:341") (lit "A:CYS:341"))],
     Ok ()).
Proof. reflexivity. Qed.

Example generic_name_run :
  (main (fun _ => true) headless_report (lit "out")
        (Some [lit "p"; lit "generic_resname"])).2 = Ok ().
Proof. reflexivity. Qed.

(** * Further properties of the parsers and of [main] *)

(** ** Which exception a comprehension raises *)

Lemma comprehension_raise {A B} (f : A -> result B) (l : list A) (e : exn) (x : A) :
  Forall (fun a => f a = Raise e \/ exists b, f a = Ok b) l ->
  x ∈ l -> f x = Raise e ->
  comprehension f l = Raise e.
Proof.
  intros Hall Hin Hx. induction Hall as [|a l Ha Hall IH]; [by inversion Hin|].
  simpl. destruct Ha as [Ha|[b Ha]]; rewrite Ha; [done|]. simpl.
  apply elem_of_cons in Hin as [->|Hin]; [congruence|].
  by rewrite IH.
Qed.

Lemma comprehension_cases {A B} (f : A -> result B) (l : list A) (e : exn) :
  Forall (fun a => f a = Raise e \/ exists b, f a = Ok b) l ->
  comprehension f l = Raise e \/ exists l', comprehension f l = Ok l'.
Proof.
  induction 1 as [|a l Ha Hall IH]; simpl; [right; by exists []|].
  destruct Ha as [->|[b ->]]; [by left|]. simpl.
  destruct IH as [->|[l' ->]]; [by left|]. right. by exists (b :: l').
Qed.

Lemma Forall2_compose {A B C} (P : A -> B -> Prop) (Q : B -> C -> Prop)
    (l : list A) (k : list B) (m : list C) :
  Forall2 P l k -> Forall2 Q k m ->
  Forall2 (fun a c => exists b, P a b /\ Q b c) l m.
Proof.
  intros H. revert m. induction H as [|a b l k Hab _ IH]; intros m Hm.
  - inversion Hm. constructor.
  - inversion Hm as [|? c ? m' Hbc Hm']; subst.
    constructor; [by exists b | by apply IH].
Qed.


(** ** Residue normalization in the multi-way parser *)

Lemma multi_normalize_eq (token : str) :
  multi_normalize token =
    if decide (token = []) then Ok []
    else resnum ← Py.int (drop 5 token);
         Ok (take 5 token ++ lit ":" ++ Py.of_int resnum).
Proof.
  unfold multi_normalize. destruct token as [|c token]; [done|].
  rewrite decide_False by done.
  change (0 <? length (c :: token))%nat with true. cbv iota.
  change 5 with (Z.of_nat 5). by rewrite slice_from, slice_upto.
Qed.




(** X1. Every row returned by the multi-way parser comes from the fields
    of a body line, in order: each field loses its flag, and what is left,
    when not empty, gives its first five characters, a colon, and the rest
    read as an integer; an empty field gives the empty token. *)
Theorem multiway_normalization (gesamt_lines : list str)
    (rows : list (list str)) (proteins : list str) :
  parse_more_than_two_queries gesamt_lines = Ok (rows, proteins) ->
  Forall2
    (fun line row =>
       Forall2
         (fun field out =>
            exists token : str,
              strip_flag field = Ok token
              /\ if decide (token = []) then out = []
                 else exists resnum : Z,
                     Py.int (drop 5 token) = Ok resnum
                     /\ out = take 5 token ++ lit ":" ++ Py.of_int resnum)
         (multi_fields line) row)
    (alignment_body multi_header gesamt_lines) rows.
Proof.
  unfold parse_more_than_two_queries. intros (names & _ & H)%bind_Ok.
  apply bind_Ok in H as (rows' & Hr & [= <- _]).
  apply comprehension_Ok in Hr. eapply Forall2_impl; [exact Hr|].
  intros line row Hline. unfold multi_line in Hline.
  apply bind_Ok in Hline as (toks & Ht & Hn).
  apply comprehension_Ok in Ht. apply comprehension_Ok in Hn.
  eapply Forall2_impl; [exact (Forall2_compose _ _ _ _ _ Ht Hn)|].
  intros field out (token & Hf & Hout). exists token. split; [done|].
  rewrite multi_normalize_eq in Hout. case_decide; [by injection Hout|].
  apply bind_Ok in Hout as (z & Hz & [= <-]). by exists z.
Qed.

Lemma multiway_normalization_witness :
  Forall2
    (fun line row =>
       Forall2
         (fun field out =>
            exists token : str,
              strip_flag field = Ok token
              /\ if decide (token = []) then out = []
                 else exists resnum : Z,
                     Py.int (drop 5 token) = Ok resnum
                     /\ out = take 5 token ++ lit ":" ++ Py.of_int resnum)
         (multi_fields line) row)
    (alignment_body multi_header (read_gesamt multiway_report))
    [[lit "A:CYS:341"; lit "A:MET:456"; []];
     [lit "A:CYS:341"; lit "A:ASN:103"; lit "D:LEU:559"]].
Proof.
  apply (multiway_normalization (read_gesamt multiway_report) _
           [lit "foo1"; lit "foo2"; lit "foo3"]).
  vm_compute. reflexivity.
Defined.



(** ** The table between its header and the closing line *)

Lemma find_bounds_started (header : str -> bool) (mid rest : list str)
    (idx : nat) (start : option nat) :
  Py.truthy start = true ->
  Forall (fun line => Py.contains QUOTE line = false) mid ->
  find_bounds header (mid ++ rest) idx start =
    match rest with
    | [] => (start, None)
    | q :: _ =>
        if Py.contains QUOTE q then (start, Some (idx + length mid)%nat)
        else find_bounds header rest (idx + length mid) start
    end.
Proof.
  intros Hs Hmid. revert idx.
  induction Hmid as [|l mid Hl _ IH]; intros idx; simpl.
  - rewrite Nat.add_0_r. destruct rest as [|q rest]; simpl; [done|].
    rewrite Hs. simpl. by destruct (Py.contains QUOTE q).
  - rewrite Hs, Hl. simpl. rewrite IH.
    replace (S idx + length mid)%nat with (idx + S (length mid))%nat by lia.
    done.
Qed.

Lemma find_bounds_header (header : str -> bool) (pre : list str) (hd : str)
    (rest : list str) (idx : nat) :
  Forall (fun line => header line = false) pre -> header hd = true ->
  find_bounds header (pre ++ hd :: rest) idx None
  = find_bounds header rest (S (idx + length pre)) (Some (idx + length pre + 2)%nat).
Proof.
  intros Hpre Hhd. revert idx. induction Hpre as [|l pre Hl _ IH]; intros idx; simpl.
  - rewrite Hhd. by rewrite Nat.add_0_r.
  - rewrite Hl, IH. f_equal; [|f_equal]; lia.
Qed.

Lemma slice_nonneg {A} (l : list A) (a b : nat) :
  (b <= length l)%nat ->
  Py.slice l (Some (Z.of_nat a)) (Some (Z.of_nat b)) = take (b - a) (drop a l).
Proof.
  intros Hb. unfold Py.slice, Py.bound.
  destruct (Z.ltb_spec (Z.of_nat a) 0) as [?|_]; [lia|].
  destruct (Z.ltb_spec (Z.of_nat b) 0) as [?|_]; [lia|].
  destruct (decide (a <= length l)%nat) as [Ha|Ha].
  - f_equal; [|f_equal]; lia.
  - rewrite !drop_ge by lia. by rewrite !take_nil.
Qed.

Lemma drop_past_header {A} (pre : list A) (hd : A) (tl : list A) :
  drop (length pre + 2) (pre ++ hd :: tl) = drop 1 tl.
Proof. by rewrite drop_app_add. Qed.

(** X3. When the table has a header, the body is what lies between the
    line after the first header (the separator) and the first later line
    with a single quote, or the end of the input when there is none: the
    start index is the header's index plus two, and a closing line right
    after the header gives an empty body. *)
Theorem alignment_body_with_header (header : str -> bool)
    (pre : list str) (hd : str) (mid rest : list str) :
  Forall (fun line => header line = false) pre ->
  header hd = true ->
  Forall (fun line => Py.contains QUOTE line = false) mid ->
  (rest = [] \/ exists q post, rest = q :: post /\ Py.contains QUOTE q = true) ->
  find_bounds header (pre ++ hd :: mid ++ rest) O None
  = (Some (length pre + 2)%nat,
     if decide (rest = []) then None else Some (length pre + 1 + length mid)%nat)
  /\ alignment_body header (pre ++ hd :: mid ++ rest) = drop 1 mid.
Proof.
  intros Hpre Hhd Hmid Hrest.
  assert (find_bounds header (pre ++ hd :: mid ++ rest) O None
          = (Some (length pre + 2)%nat,
             if decide (rest = []) then None
             else Some (length pre + 1 + length mid)%nat)) as Hb.
  { rewrite find_bounds_header by done. simpl.
    rewrite find_bounds_started; [| |done].
    - destruct Hrest as [->|(q & post & -> & Hq)]; [done|].
      rewrite Hq, decide_False by done. do 2 f_equal. lia.
    - simpl. apply negb_true_iff, Nat.eqb_neq. lia. }
  split; [done|]. unfold alignment_body. rewrite Hb.
  destruct Hrest as [->|(q & post & -> & Hq)]; simpl.
  - rewrite slice_from, app_nil_r. apply drop_past_header.
  - rewrite slice_nonneg.
    + rewrite drop_past_header. destruct mid as [|m mid]; simpl.
      * replace (length pre + 1 + 0 - (length pre + 2))%nat with O by lia. done.
      * rewrite drop_0.
        replace (length pre + 1 + S (length mid) - (length pre + 2))%nat
          with (length mid) by lia.
        apply take_app_length.
    + rewrite length_app. simpl. rewrite length_app. simpl. lia.
Qed.

Lemma alignment_body_with_header_witness :
  alignment_body pair_header
    (take 2 (read_gesamt pairwise_report)
       ++ lit "|    Query    |  Dist.(A)  |   Target    |"
       :: take 2 (drop 3 (read_gesamt pairwise_report))
       ++ drop 5 (read_gesamt pairwise_report))
  = drop 1 (take 2 (drop 3 (read_gesamt pairwise_report))).
Proof.
  apply (alignment_body_with_header pair_header
           (take 2 (read_gesamt pairwise_report))
           (lit "|    Query    |  Dist.(A)  |   Target    |")
           (take 2 (drop 3 (read_gesamt pairwise_report)))
           (drop 5 (read_gesamt pairwise_report))).
  - by_decide.
  - reflexivity.
  - by_decide.
  - right. eexists _, _. split; reflexivity.
Defined.

(** ** The width of the rows and short body lines in the pairwise parser *)

Lemma split_go_length (c : ascii) (cur s : str) :
  length (Py.split_go [c] O cur s) = S (length (filter (fun a => a = c) s)).
Proof.
  revert cur. induction s as [|a s IH]; intros cur; [done|].
  rewrite split_go_step, filter_cons. case_bool_decide.
  - rewrite decide_True by done. simpl. by rewrite IH.
  - rewrite decide_False by done. apply IH.
Qed.

Lemma pair_fields_cases (line : str) :
  pair_fields line = Raise IndexError \/ exists fields, pair_fields line = Ok fields.
Proof.
  unfold pair_fields. apply comprehension_cases, Forall_forall.
  intros idx _. unfold Py.index. destruct (_ !! idx); [right; by eexists | by left].
Qed.

Lemma pair_fields_short (line : str) :
  (length (filter (fun c => c = "|"%char) line) < 3)%nat ->
  pair_fields line = Raise IndexError.
Proof.
  intros Hlen. destruct (pair_fields_cases line) as [H|[fields H]]; [done|].
  exfalso. unfold pair_fields in H. simpl in H.
  apply bind_Ok in H as (f1 & _ & H). apply bind_Ok in H as (fs & H & _).
  apply bind_Ok in H as (f3 & H & _). unfold Py.index in H.
  destruct (Py.split PIPE line !! 3%nat) as [x|] eqn:E; [|done].
  apply lookup_lt_Some in E. unfold Py.split in E.
  change PIPE with ["|"%char] in E. rewrite split_go_length in E. lia.
Qed.

(** X5. In the pairwise parser a body line with fewer than three ['|']
    has no field 3: when the structure names could be read, the run ends
    in an [IndexError] with no file opened, whatever the residue numbers
    of the other lines are. *)
Theorem short_body_line_aborts (can_open : str -> bool) (raw_lines : list str)
    (output_path : str) (input_proteins : option (list str))
    (proteins : list str) (line : str) :
  two_queries (read_gesamt raw_lines) = true ->
  read_proteins pair_marker (read_gesamt raw_lines) = Ok proteins ->
  line ∈ alignment_body pair_header (read_gesamt raw_lines) ->
  (length (filter (fun c => c = "|"%char) line) < 3)%nat ->
  main can_open raw_lines output_path input_proteins = ([], Raise IndexError).
Proof.
  intros Hfmt Hnames Hline Hshort.
  unfold main, parse. rewrite Hfmt. unfold parse_two_queries.
  rewrite Hnames. simpl.
  rewrite (comprehension_raise pair_fields _ IndexError line); [done| |done|].
  - apply Forall_forall. intros l _. apply pair_fields_cases.
  - by apply pair_fields_short.
Qed.

Lemma short_body_line_aborts_witness :
  main (fun _ => true) unclosed_report (lit "out") None = ([], Raise IndexError).
Proof.
  apply (short_body_line_aborts _ unclosed_report _ _
           [lit "foo1"; lit "foo2"] (lit "Summary")).
  - reflexivity.
  - reflexivity.
  - by_decide.
  - vm_compute. lia.
Defined.

Lemma pair_rows_width_witness :
  Forall (fun row => length row = 2%nat) [[lit "A:LEU:75"; lit "A:LEU:65"]].
Proof.
  apply (pair_rows_width (read_gesamt pairwise_report) _ [lit "foo1"; lit "foo2"]).
  vm_compute. reflexivity.
Defined.

(** ** Names and columns: when [main] fails and when it completes *)

Lemma row_dict_cases (proteins line : list str) (idx : nat) (d : dict) :
  row_dict proteins idx line d = Raise IndexError
  \/ exists d', row_dict proteins idx line d = Ok d'.
Proof.
  revert idx d. induction line as [|residue rest IH]; intros idx d; simpl.
  - right. by exists d.
  - unfold Py.index. destruct (proteins !! idx) as [protein|]; [|by left].
    simpl. apply IH.
Qed.

Lemma keys_set_old (k k' v : str) (d : dict) :
  k ∈ Dict.keys d -> k ∈ Dict.keys (Dict.set k' v d).
Proof.
  intros Hk. rewrite keys_set. case_decide; [done|].
  apply elem_of_app. by left.
Qed.

Lemma keys_set_new (k v : str) (d : dict) : k ∈ Dict.keys (Dict.set k v d).
Proof.
  rewrite keys_set. case_decide; [done|].
  apply elem_of_app. right. apply list_elem_of_here.
Qed.

(** With enough names the dict comprehension succeeds, keeps the keys it
    started from and has a key for each name it went through. *)
Lemma row_dict_total (proteins line : list str) (idx : nat) (d : dict) :
  (idx + length line <= length proteins)%nat ->
  exists d', row_dict proteins idx line d = Ok d'
    /\ (forall k, k ∈ Dict.keys d -> k ∈ Dict.keys d')
    /\ (forall j S, (j < length line)%nat -> proteins !! (idx + j)%nat = Some S ->
                    S ∈ Dict.keys d').
Proof.
  revert idx d. induction line as [|residue rest IH]; intros idx d Hlen; simpl in *.
  - exists d. split; [done|]. split; [done|]. intros j S Hj. lia.
  - destruct (lookup_lt_is_Some_2 proteins idx) as [protein Hp]; [lia|].
    unfold Py.index. rewrite Hp. simpl.
    destruct (IH (S idx) (Dict.set protein residue d)) as (d' & Hd' & Hold & Hnew);
      [lia|].
    exists d'. split; [done|]. split.
    + intros k Hk. by apply Hold, keys_set_old.
    + intros [|j] S Hj HS.
      * rewrite Nat.add_0_r, Hp in HS. injection HS as <-.
        apply Hold, keys_set_new.
      * apply (Hnew j); [lia|]. by rewrite <- HS, Nat.add_succ_r.
Qed.

(** X6. When a parsed row has more tokens than there are structure names
    (after the [--proteins] override), the run ends in an [IndexError]
    with no file opened. *)
Theorem too_few_names_aborts (can_open : str -> bool) (raw_lines : list str)
    (output_path : str) (input_proteins : option (list str))
    (rows : list (list str)) (parsed_names : list str) (row : list str) :
  parse (read_gesamt raw_lines) = Ok (rows, parsed_names) ->
  row ∈ rows ->
  (length (default parsed_names input_proteins) < length row)%nat ->
  main can_open raw_lines output_path input_proteins = ([], Raise IndexError).
Proof.
  intros Hp Hrow Hlen. unfold main. rewrite Hp, io_bind_lift_Ok.
  unfold label_files, assemble.
  rewrite (comprehension_raise _ rows IndexError row); [done| |done|].
  - apply Forall_forall. intros r _. apply row_dict_cases.
  - destruct (row_dict_cases (default parsed_names input_proteins) row O [])
      as [H|[d H]]; [done|].
    apply row_dict_Ok_length in H; [simpl in H; lia|].
    intros ->. simpl in Hlen. lia.
Qed.

Lemma too_few_names_aborts_witness :
  main (fun _ => true) pairwise_report (lit "out") (Some [lit "alpha"])
  = ([], Raise IndexError).
Proof.
  apply (too_few_names_aborts _ pairwise_report _ _
           [[lit "A:LEU:75"; lit "A:LEU:65"]] [lit "foo1"; lit "foo2"]
           [lit "A:LEU:75"; lit "A:LEU:65"]).
  - vm_compute. reflexivity.
  - by_decide.
  - simpl. lia.
Defined.

Lemma assemble_total (names : list str) (rows : list (list str)) :
  Forall (fun row => length row = length names) rows ->
  exists records, assemble names rows = Ok records
    /\ Forall (fun R => GENERIC ∈ Dict.keys R /\ forall S, S ∈ names -> S ∈ Dict.keys R)
              records.
Proof.
  unfold assemble. induction 1 as [|row rows Hrow _ (records & Ha & HF)].
  - exists []. split; [done | constructor].
  - apply bind_Ok in Ha as (ds & Hds & Hrs).
    destruct (row_dict_total names row O []) as (d & Hd & _ & Hkeys); [simpl; lia|].
    exists (Dict.set GENERIC (generic_of (Dict.keys d) (token d)) d :: records).
    split.
    + simpl. rewrite Hd. simpl. rewrite Hds. simpl.
      rewrite add_generic_eq. simpl. by rewrite Hrs.
    + constructor; [|done]. split; [apply keys_set_new|].
      intros S (j & Hj)%list_elem_of_lookup_1. apply keys_set_old.
      apply (Hkeys j); [|done]. rewrite Hrow. by eapply lookup_lt_Some.
Qed.

Lemma write_lines_total (path S : str) (records : list dict) :
  Forall (fun R => S ∈ Dict.keys R /\ GENERIC ∈ Dict.keys R) records ->
  (write_lines path S records).2 = Ok ().
Proof.
  induction 1 as [|R records [(tok & Ht)%keys_get (g & Hg)%keys_get] _ IH]; [done|].
  rewrite write_lines_cons, Ht, Hg. by case_decide.
Qed.

Lemma write_labels_total (can_open : str -> bool) (output_path : str)
    (names : list str) (records : list dict) :
  Forall (fun S => can_open (label_path output_path S) = true) names ->
  Forall (fun S => Forall (fun R => S ∈ Dict.keys R /\ GENERIC ∈ Dict.keys R) records)
         names ->
  (write_labels can_open output_path names records).2 = Ok ().
Proof.
  induction 1 as [|S names HS _ IH]; [done|].
  intros [HR Hrest]%Forall_cons. rewrite write_labels_cons. cbv zeta.
  rewrite HS, write_lines_total by done. simpl. by apply IH.
Qed.

(** X7. When the parser returns rows that all have as many tokens as there
    are structure names (after the [--proteins] override) and every label
    file can be opened, the run ends without an exception; the names need
    not be distinct. *)
Theorem main_completes (can_open : str -> bool) (raw_lines : list str)
    (output_path : str) (input_proteins : option (list str))
    (rows : list (list str)) (parsed_names : list str) :
  parse (read_gesamt raw_lines) = Ok (rows, parsed_names) ->
  Forall (fun row => length row = length (default parsed_names input_proteins)) rows ->
  Forall (fun S => can_open (label_path output_path S) = true)
         (default parsed_names input_proteins) ->
  exists t : list event,
    main can_open raw_lines output_path input_proteins = (t, Ok ()).
Proof.
  intros Hp Hrows Hopen. unfold main. rewrite Hp, io_bind_lift_Ok.
  unfold label_files.
  destruct (assemble_total _ _ Hrows) as (records & -> & HF).
  rewrite io_bind_lift_Ok.
  destruct (write_labels can_open _ _ records) as [t r] eqn:E.
  exists t. f_equal.
  change r with (t, r).2. rewrite <- E. apply write_labels_total; [done|].
  apply Forall_forall. intros S HS. eapply Forall_impl; [exact HF|].
  intros R [Hg Hk]. split; [by apply Hk | done].
Qed.

Lemma main_completes_witness :
  exists t : list event,
    main (fun _ => true) multiway_report (lit "out") (Some [lit "a"; lit "b"; lit "a"])
    = (t, Ok ()).
Proof.
  apply (main_completes _ multiway_report _ _
           [[lit "A:CYS:341"; lit "A:MET:456"; []];
            [lit "A:CYS:341"; lit "A:ASN:103"; lit "D:LEU:559"]]
           [lit "foo1"; lit "foo2"; lit "foo3"]).
  - vm_compute. reflexivity.
  - by_decide.
  - by_decide.
Defined.

(** ** Records and label files in terms of the parsed rows *)

Lemma tokens_of_zip (names row : list str) :
  NoDup names -> length row = length names ->
  token (zip names row) <$> names = row.
Proof.
  intros Hnd Hlen. apply list_eq. intros i. rewrite list_lookup_fmap.
  destruct (names !! i) as [S|] eqn:HS; simpl.
  - destruct (lookup_lt_is_Some_2 row i) as [tok Htok].
    { rewrite Hlen. by eapply lookup_lt_Some. }
    rewrite Htok. f_equal. by apply (token_zip_positional names row Hnd i).
  - symmetry. apply lookup_ge_None. rewrite Hlen. by apply lookup_ge_None.
Qed.

Lemma generic_of_zip (names row : list str) :
  NoDup names -> length row = length names ->
  generic_of names (token (zip names row)) = row_label row.
Proof.
  intros Hnd Hlen. unfold generic_of, row_label. f_equal.
  trans (none_if_empty <$> (token (zip names row) <$> names));
    [by rewrite <- list_fmap_compose | by rewrite tokens_of_zip].
Qed.

(** The records of rows that have one token per pairwise distinct name. *)
Lemma assemble_zip (names : list str) (rows : list (list str)) :
  NoDup names -> Forall (fun row => length row = length names) rows ->
  assemble names rows
  = Ok ((fun row => Dict.set GENERIC (row_label row) (zip names row)) <$> rows).
Proof.
  intros Hnd Hrows. unfold assemble.
  rewrite (comprehension_total _ (zip names)).
  - simpl. apply comprehension_Ok, Forall2_fmap, Forall_Forall2_diag.
    eapply Forall_impl; [exact Hrows|]. intros row Hlen. simpl.
    rewrite add_generic_eq, keys_zip by done. by rewrite generic_of_zip.
  - eapply Forall_impl; [exact Hrows|]. intros row Hlen. by apply record_of_row.
Qed.

(** X8. With pairwise distinct names, one per column, the record of a row
    gives back, under each name other than ["generic_resname"], the token
    of that name's column. *)
Theorem record_lookup (names : list str) (rows : list (list str)) (records : list dict) :
  NoDup names ->
  Forall (fun row => length row = length names) rows ->
  assemble names rows = Ok records ->
  Forall2 (fun row R =>
             forall (i : nat) (S tok : str),
               names !! i = Some S -> row !! i = Some tok -> S <> GENERIC ->
               Dict.get S R = Ok tok)
          rows records.
Proof.
  intros Hnd Hrows Ha. rewrite assemble_zip in Ha by done. injection Ha as <-.
  apply Forall2_fmap_r, Forall_Forall2_diag.
  eapply Forall_impl; [exact Hrows|]. intros row Hlen i S tok HS Htok Hne.
  rewrite get_set, decide_False by done. by apply (get_zip names row i).
Qed.

Lemma record_lookup_witness :
  Forall2 (fun row R =>
             forall (i : nat) (S tok : str),
               [lit "foo1"; lit "foo2"] !! i = Some S -> row !! i = Some tok ->
               S <> GENERIC -> Dict.get S R = Ok tok)
          [[lit "A:LEU:75"; lit "A:LEU:65"]]
          [[(lit "foo1", lit "A:LEU:75"); (lit "foo2", lit "A:LEU:65");
            (GENERIC, lit "A:LEU:75-A:LEU:65")]].
Proof.
  apply (record_lookup [lit "foo1"; lit "foo2"]).
  - by_decide.
  - by_decide.
  - vm_compute. reflexivity.
Defined.

(** The rows of a run that completes, with distinct names. *)
Lemma completed_rows_width (can_open : str -> bool) (output_path : str)
    (names : list str) (rows : list (list str)) (records : list dict)
    (t : list event) :
  NoDup names -> GENERIC ∉ names ->
  assemble names rows = Ok records ->
  write_labels can_open output_path names records = (t, Ok ()) ->
  Forall (fun row => length row = length names) rows.
Proof.
  intros Hnd Hg Ha Hw.
  apply write_labels_Ok in Hw as [_ HF]. apply assemble_Ok in Ha.
  apply Forall_forall. intros row (i & Hi)%list_elem_of_lookup_1.
  destruct (Forall2_lookup_l _ _ _ _ _ Ha Hi) as (R & HR & d & Hd & Hadd).
  apply (row_width _ row d R); try done.
  intros S HS. apply (proj1 (Forall_forall _ _) HF) in HS.
  apply (proj1 (Forall_forall _ _) HS). by eapply list_elem_of_lookup_2.
Qed.

Lemma label_lines_of_rows (names : list str) (rows : list (list str)) (i : nat) (S : str) :
  NoDup names -> names !! i = Some S -> S <> GENERIC ->
  Forall (fun row => length row = length names) rows ->
  label_lines S ((fun row => Dict.set GENERIC (row_label row) (zip names row)) <$> rows)
  = (fun row => column i row ++ TAB ++ row_label row ++ TAB ++ NL)
      <$> filter (fun row => column i row <> []) rows.
Proof.
  intros Hnd HS Hne. unfold label_lines.
  induction 1 as [|row rows Hlen _ IH]; [done|].
  destruct (lookup_lt_is_Some_2 row i) as [tok Htok].
  { rewrite Hlen. by eapply lookup_lt_Some. }
  assert (token (Dict.set GENERIC (row_label row) (zip names row)) S = column i row)
    as Htoken.
  { unfold token, column. rewrite get_set, decide_False by done.
    by rewrite (get_zip names row i S tok), Htok. }
  assert (token (Dict.set GENERIC (row_label row) (zip names row)) GENERIC
          = row_label row) as Hgen.
  { unfold token. by rewrite get_set, decide_True. }
  rewrite fmap_cons, !filter_cons, Htoken.
  case_decide; [|exact IH].
  rewrite !fmap_cons, Htoken, Hgen. f_equal. exact IH.
Qed.

(** X9. After a run that ends without an exception, with pairwise distinct
    structure names none of which is ["generic_resname"], the label file of
    the [i]-th name holds, for each parsed row whose [i]-th token is not
    empty and in the order of the rows, that token, a tab, the tokens of
    the row joined by ['-'] (["None"] for an empty one), a tab and a
    newline. *)
Theorem label_file_of_rows (can_open : str -> bool) (raw_lines : list str)
    (output_path : str) (input_proteins : option (list str)) (t : list event)
    (rows : list (list str)) (parsed_names : list str) (i : nat) (S : str)
    (fs : gmap str str) :
  parse (read_gesamt raw_lines) = Ok (rows, parsed_names) ->
  main can_open raw_lines output_path input_proteins = (t, Ok ()) ->
  NoDup (default parsed_names input_proteins) ->
  GENERIC ∉ default parsed_names input_proteins ->
  default parsed_names input_proteins !! i = Some S ->
  run_trace t fs !! label_path output_path S
  = Some (concat ((fun row => column i row ++ TAB ++ row_label row ++ TAB ++ NL)
                    <$> filter (fun row => column i row <> []) rows)).
Proof.
  intros Hp (rows' & parsed' & records & Hp' & Ha & Hw)%main_Ok Hnd Hg HS.
  rewrite Hp in Hp'. injection Hp' as <- <-.
  pose proof (completed_rows_width _ _ _ _ _ _ Hnd Hg Ha Hw) as Hrows.
  rewrite assemble_zip in Ha by done. injection Ha as <-.
  apply write_labels_Ok in Hw as [-> _].
  rewrite run_blocks, lookup_blocks by (by eapply list_elem_of_lookup_2).
  unfold label_file. rewrite (label_lines_of_rows _ _ i); try done.
  intros ->. apply Hg. by eapply list_elem_of_lookup_2.
Qed.

Lemma label_file_of_rows_witness :
  run_trace (main (fun _ => true) multiway_report (lit "out") None).1 ∅
    !! label_path (lit "out") (lit "foo3")
  = Some (concat ((fun row => column 2 row ++ TAB ++ row_label row ++ TAB ++ NL)
                    <$> filter (fun row => column 2 row <> [])
                          [[lit "A:CYS:341"; lit "A:MET:456"; []];
                           [lit "A:CYS:341"; lit "A:ASN:103"; lit "D:LEU:559"]])).
Proof.
  apply (label_file_of_rows (fun _ => true) multiway_report (lit "out") None _ _
           [lit "foo1"; lit "foo2"; lit "foo3"]).
  - vm_compute. reflexivity.
  - vm_compute. reflexivity.
  - by_decide.
  - by_decide.
  - reflexivity.
Defined.

(** ** What a run leaves alone, and what a failed run leaves behind *)

Lemma run_trace_frame (t : list event) (fs : gmap str str) (p : str) :
  Forall (fun e => event_path e <> p) t -> run_trace t fs !! p = fs !! p.
Proof.
  intros Ht. revert fs. induction Ht as [|e t He _ IH]; intros fs; [done|].
  unfold run_trace in *. simpl. rewrite IH.
  destruct e as [path|path data]; simpl in *; by rewrite lookup_insert_ne.
Qed.

Lemma write_labels_paths (can_open : str -> bool) (output_path : str)
    (names : list str) (records : list dict) :
  Forall (fun e => exists S, S ∈ names /\ event_path e = label_path output_path S)
         (write_labels can_open output_path names records).1.
Proof.
  induction names as [|S names IH]; [constructor|].
  rewrite write_labels_cons. cbv zeta. destruct (can_open _); [|constructor].
  destruct (write_lines_trace (label_path output_path S) S records) as [datas Hd].
  assert (Forall (fun e => exists S', S' ∈ S :: names
                             /\ event_path e = label_path output_path S')
                 (EOpen (label_path output_path S)
                    :: (write_lines (label_path output_path S) S records).1)) as Hblock.
  { rewrite Hd. constructor; [exists S; split; [apply list_elem_of_here | done]|].
    apply Forall_fmap, Forall_forall. intros data _. exists S.
    split; [apply list_elem_of_here | done]. }
  destruct (write_lines _ S records).2; simpl; [|done].
  rewrite app_comm_cons. apply Forall_app. split; [done|].
  eapply Forall_impl; [exact IH|]. intros e (S' & HS' & He). exists S'.
  split; [by apply list_elem_of_further | done].
Qed.

(** X10. Whatever the outcome of a run, a file that is not
    [output_path/S.label] for one of the structure names [S] is left as it
    was. *)
Theorem other_files_untouched (can_open : str -> bool) (raw_lines : list str)
    (output_path : str) (input_proteins : option (list str))
    (p : str) (fs : gmap str str) :
  (forall rows parsed_names S,
      parse (read_gesamt raw_lines) = Ok (rows, parsed_names) ->
      S ∈ default parsed_names input_proteins ->
      p <> label_path output_path S) ->
  run_trace (main can_open raw_lines output_path input_proteins).1 fs !! p = fs !! p.
Proof.
  intros Hp. apply run_trace_frame. unfold main. rewrite io_bind_lift_trace.
  destruct (parse _) as [[rows parsed_names]|e]; [|constructor].
  unfold label_files. rewrite io_bind_lift_trace.
  destruct (assemble _ _) as [records|e]; [|constructor].
  eapply Forall_impl; [apply write_labels_paths|].
  intros e (S & HS & ->). intros <-. by eapply Hp.
Qed.

Lemma other_files_untouched_witness :
  run_trace (main (fun _ => true) pairwise_report (lit "out") None).1
            {[ lit "out/notes.txt" := lit "kept" ]}
    !! lit "out/notes.txt"
  = ({[ lit "out/notes.txt" := lit "kept" ]} : gmap str str) !! lit "out/notes.txt".
Proof.
  apply (other_files_untouched (fun _ => true) pairwise_report (lit "out") None).
  intros rows parsed_names S Hp HS. vm_compute in Hp. injection Hp as <- <-.
  apply elem_of_cons in HS as [->|HS]; [discriminate|].
  apply elem_of_cons in HS as [->|HS]; [discriminate|].
  by inversion HS.
Defined.

Lemma write_labels_app (can_open : str -> bool) (output_path : str)
    (pre post : list str) (records : list dict) :
  write_labels can_open output_path (pre ++ post) records
  = io_bind (write_labels can_open output_path pre records)
            (fun _ => write_labels can_open output_path post records).
Proof.
  induction pre as [|S pre IH].
  - rewrite app_nil_l. cbn [write_labels]. by rewrite io_bind_ret.
  - rewrite <- app_comm_cons, !write_labels_cons. cbv zeta.
    destruct (can_open _); [|done].
    destruct (write_lines _ S records) as [t1 [[]|e]]; simpl; [|done].
    rewrite IH.
    destruct (write_labels can_open output_path pre records) as [t2 [[]|e]]; simpl.
    + destruct (write_labels can_open output_path post records) as [t3 r3].
      simpl. by rewrite app_assoc.
    + done.
Qed.

(** The writer on names that all are keys of every record and whose files
    can be opened. *)
Lemma write_labels_complete (can_open : str -> bool) (output_path : str)
    (names : list str) (records : list dict) :
  Forall (fun S => can_open (label_path output_path S) = true) names ->
  Forall (fun S => Forall (fun R => S ∈ Dict.keys R /\ GENERIC ∈ Dict.keys R) records)
         names ->
  write_labels can_open output_path names records
  = (names ≫= (fun S =>
        EOpen (label_path output_path S)
          :: (EWrite (label_path output_path S) <$> label_lines S records)),
     Ok ()).
Proof.
  intros Hopen Hkeys.
  pose proof (write_labels_total can_open output_path names records Hopen Hkeys) as Hr.
  destruct (write_labels can_open output_path names records) as [t r] eqn:E.
  simpl in Hr. subst r. by apply write_labels_Ok in E as [-> _].
Qed.



Lemma get_absent (k : str) (d : dict) : k ∉ Dict.keys d -> Dict.get k d = Raise KeyError.
Proof.
  intros Hk. destruct (Dict.get k d) as [v|e] eqn:E.
  - by apply get_keys in E.
  - clear Hk. induction d as [|[k' v'] d IH]; simpl in E; [by injection E as <-|].
    destruct (Py.eqb k k'); [done | by apply IH].
Qed.

(** The records of rows of [k] tokens, with pairwise distinct names of
    which none is ["generic_resname"]: their keys are the first [k] names
    and ["generic_resname"]. *)
Lemma assemble_short (names : list str) (rows : list (list str)) (k : nat) :
  NoDup names -> GENERIC ∉ names -> (k <= length names)%nat ->
  Forall (fun row => length row = k) rows ->
  exists records, assemble names rows = Ok records
    /\ length records = length rows
    /\ Forall (fun R => Dict.keys R = take k names ++ [GENERIC]) records.
Proof.
  intros Hnd Hg Hk. unfold assemble.
  induction 1 as [|row rows Hrow _ (records & Ha & Hlen & HF)].
  - exists []. split; [done|]. split; [done | constructor].
  - apply bind_Ok in Ha as (ds & Hds & Hrs).
    exists (Dict.set GENERIC (generic_of (take k names) (token (zip (take k names) row)))
                     (zip (take k names) row) :: records).
    assert (Dict.keys (zip (take k names) row) = take k names) as Hkeys.
    { apply keys_zip. rewrite length_take. lia. }
    split; [|split].
    + simpl. rewrite row_dict_zip; [|done|done|simpl; lia].
      rewrite drop_0, Hrow. simpl. rewrite Hds. simpl.
      rewrite add_generic_eq, Hkeys. simpl. by rewrite Hrs.
    + simpl. by rewrite Hlen.
    + constructor; [|done]. rewrite keys_set, Hkeys.
      rewrite decide_False; [done|]. intros Hin. apply Hg.
      by eapply (subseteq_take k names).
Qed.

(** X12. With pairwise distinct structure names, none of which is
    ["generic_resname"], and at least one row, all rows having [k] tokens
    and [k] being less than the number of names: the run ends in a
    [KeyError] after it has opened the label files of the first [k + 1]
    names, those of the first [k] names being written in full. *)
Theorem surplus_name_aborts (can_open : str -> bool) (raw_lines : list str)
    (output_path : str) (input_proteins : option (list str))
    (rows : list (list str)) (parsed_names : list str) (k : nat) (name : str) :
  parse (read_gesamt raw_lines) = Ok (rows, parsed_names) ->
  rows <> [] ->
  NoDup (default parsed_names input_proteins) ->
  GENERIC ∉ default parsed_names input_proteins ->
  Forall (fun row => length row = k) rows ->
  default parsed_names input_proteins !! k = Some name ->
  Forall (fun S => can_open (label_path output_path S) = true)
         (take (S k) (default parsed_names input_proteins)) ->
  exists records : list dict,
    assemble (default parsed_names input_proteins) rows = Ok records
    /\ main can_open raw_lines output_path input_proteins
       = ((take k (default parsed_names input_proteins) ≫= fun S =>
             EOpen (label_path output_path S)
               :: (EWrite (label_path output_path S) <$> label_lines S records))
          ++ [EOpen (label_path output_path name)],
          Raise KeyError).
Proof.
  intros Hp Hne Hnd Hg Hrows Hname Hopen.
  set (names := default parsed_names input_proteins) in *.
  pose proof (lookup_lt_Some _ _ _ Hname) as Hk.
  destruct (assemble_short names rows k) as (records & Ha & Hlen & HF);
    [done|done|lia|done|].
  exists records. split; [done|].
  unfold main. rewrite Hp, io_bind_lift_Ok. unfold label_files. fold names.
  rewrite Ha, io_bind_lift_Ok.
  rewrite <- (take_drop_middle names k name Hname) at 1.
  rewrite write_labels_app.
  rewrite (take_S_r _ _ _ Hname) in Hopen. apply Forall_app in Hopen as [Hpre Hn].
  apply Forall_inv in Hn.
  rewrite write_labels_complete; [|done|].
  - rewrite write_labels_cons. cbv zeta. rewrite Hn.
    destruct records as [|R records]; [destruct rows; done|].
    apply Forall_inv in HF. rewrite write_lines_cons.
    rewrite get_absent; [done|]. rewrite HF. intros Hin.
    apply elem_of_app in Hin as [Hin|Hin%list_elem_of_singleton].
    + apply list_elem_of_lookup_1 in Hin as [j Hj].
      pose proof (lookup_lt_Some _ _ _ Hj) as Hlt. rewrite length_take in Hlt.
      rewrite lookup_take_lt in Hj by lia.
      pose proof (NoDup_lookup _ _ _ _ Hnd Hj Hname). lia.
    + apply Hg. rewrite <- Hin. by eapply list_elem_of_lookup_2.
  - apply Forall_forall. intros S HS. eapply Forall_impl; [exact HF|].
    intros R HR. simpl in HR. rewrite HR. rewrite !elem_of_app.
    split; [by left | right; apply list_elem_of_here].
Qed.

Lemma surplus_name_aborts_witness :
  exists records : list dict,
    assemble (default [lit "foo1"; lit "foo2"] (Some [lit "a"; lit "b"; lit "c"]))
             [[lit "A:LEU:75"; lit "A:LEU:65"]] = Ok records
    /\ main (fun _ => true) pairwise_report (lit "out") (Some [lit "a"; lit "b"; lit "c"])
       = ((take 2 (default [lit "foo1"; lit "foo2"] (Some [lit "a"; lit "b"; lit "c"]))
             ≫= fun S =>
             EOpen (label_path (lit "out") S)
               :: (EWrite (label_path (lit "out") S) <$> label_lines S records))
          ++ [EOpen (label_path (lit "out") (lit "c"))],
          Raise KeyError).
Proof.
  apply (surplus_name_aborts (fun _ => true) pairwise_report (lit "out")
           (Some [lit "a"; lit "b"; lit "c"])
           [[lit "A:LEU:75"; lit "A:LEU:65"]] [lit "foo1"; lit "foo2"] 2 (lit "c")).
  - vm_compute. reflexivity.
  - discriminate.
  - by_decide.
  - by_decide.
  - by_decide.
  - reflexivity.
  - by_decide.
Defined.

(** ** The lines handed to the parsers *)

Lemma lstrip_head (s : str) :
  Py.lstrip s = [] \/ exists c s', Py.lstrip s = c :: s' /\ Py.is_space c = false.
Proof.
  induction s as [|c s IH]; simpl; [by left|].
  destruct (Py.is_space c) eqn:E; [done|]. right. by exists c, s.
Qed.

Lemma lstrip_suffix (s : str) : exists sp, s = sp ++ Py.lstrip s.
Proof.
  induction s as [|c s [sp IH]]; simpl; [by exists []|].
  destruct (Py.is_space c); [|by exists []].
  exists (c :: sp). simpl. by rewrite <- IH.
Qed.

Lemma strip_ends (s : str) :
  Py.strip s <> [] ->
  (exists c, head (Py.strip s) = Some c /\ Py.is_space c = false)
  /\ (exists c, last (Py.strip s) = Some c /\ Py.is_space c = false).
Proof.
  unfold Py.strip, Py.rstrip. intros Hne.
  destruct (lstrip_head (rev (Py.lstrip s))) as [HY|(c & Y & HY & Hc)].
  { by rewrite HY in Hne. }
  rewrite HY in *. simpl in *. split.
  - destruct (lstrip_suffix (rev (Py.lstrip s))) as [sp Hsp]. rewrite HY in Hsp.
    apply (f_equal (@rev ascii)) in Hsp. rewrite rev_involutive, rev_app_distr in Hsp.
    simpl in Hsp.
    destruct (lstrip_head s) as [HX|(x & X & HX & Hx)].
    + rewrite HX in Hsp. by destruct (rev Y).
    + rewrite HX in Hsp. exists x. split; [|done].
      destruct (rev Y) as [|y Y']; simpl in *; by injection Hsp as <-.
  - exists c. split; [|done]. apply last_snoc.
Qed.

(** X13. The lines that [main] hands to the parsers are the trimmed input
    lines that are not blank: none of them is empty, and none begins or
    ends with a whitespace character. *)
Theorem gesamt_lines_trimmed (raw_lines : list str) (line : str) :
  line ∈ read_gesamt raw_lines ->
  (exists raw, raw ∈ raw_lines /\ line = Py.strip raw)
  /\ line <> []
  /\ (exists c, head line = Some c /\ Py.is_space c = false)
  /\ (exists c, last line = Some c /\ Py.is_space c = false).
Proof.
  rewrite read_gesamt_filter. intros [Hne Hin]%list_elem_of_filter.
  apply list_elem_of_fmap in Hin as (raw & -> & Hraw).
  split; [by exists raw|]. split; [done|]. by apply strip_ends.
Qed.

Lemma gesamt_lines_trimmed_witness :
  (exists raw, raw ∈ [lit "  "; lit "  Disp. | | foo1   "] /\ lit "Disp. | | foo1" = Py.strip raw)
  /\ lit "Disp. | | foo1" <> []
  /\ (exists c, head (lit "Disp. | | foo1") = Some c /\ Py.is_space c = false)
  /\ (exists c, last (lit "Disp. | | foo1") = Some c /\ Py.is_space c = false).
Proof.
  apply (gesamt_lines_trimmed [lit "  "; lit "  Disp. | | foo1   "]).
  by_decide.
Defined.

(** ** Residue numbers *)

Lemma digits_of_uint_acc (d : uint) (acc : positive) :
  Py.digits (Z.pos acc) true (lit (NilEmpty.string_of_uint d))
  = Some (Z.pos (Pos.of_uint_acc d acc)).
Proof.
  revert acc. induction d; intros acc; [done|..]; cbn [NilEmpty.string_of_uint lit
    list_ascii_of_string Py.digits Pos.of_uint_acc];
    match goal with
    | |- context [Py.digit ?c] =>
        let v := eval vm_compute in (Py.digit c) in
        change (Py.digit c) with v; cbv iota
    end; rewrite <- IHd; f_equal; lia.
Qed.

Lemma digits_of_uint (d : uint) (prev : bool) :
  d <> Nil \/ prev = true ->
  Py.digits 0 prev (lit (NilEmpty.string_of_uint d)) = Some (Z.of_N (Pos.of_uint d)).
Proof.
  revert prev. induction d; intros prev Hd;
    [destruct Hd as [?| ->]; done | ..];
    cbn [NilEmpty.string_of_uint lit list_ascii_of_string Py.digits Pos.of_uint];
    match goal with
    | |- context [Py.digit ?c] =>
        let v := eval vm_compute in (Py.digit c) in
        change (Py.digit c) with v; cbv iota
    end; try (apply IHd; by right); apply digits_of_uint_acc.
Qed.

Lemma string_of_uint_head (d : uint) :
  d <> Nil ->
  exists c rest, lit (NilEmpty.string_of_uint d) = c :: rest
                 /\ c <> "-"%char /\ c <> "+"%char.
Proof. destruct d; [done|..]; intros _; eexists _, _; by split. Qed.

Lemma not_int_space (c : ascii) : Py.is_space c = false -> Py.is_int_space c = false.
Proof.
  destruct c as [[|] [|] [|] [|] [|] [|] [|] [|]]; vm_compute; congruence.
Qed.

Lemma skip_space_no_space (s : str) :
  Forall (fun c => Py.is_space c = false) s -> Py.skip_space s = s.
Proof.
  destruct 1 as [|c s Hc _]; simpl; [done|]. by rewrite (not_int_space c Hc).
Qed.

Lemma int_literal_no_space (s : str) :
  Forall (fun c => Py.is_space c = false) s -> Py.int_literal s = s.
Proof.
  intros Hs. unfold Py.int_literal.
  rewrite (skip_space_no_space s Hs), skip_space_no_space, rev_involutive; [done|].
  by apply Forall_rev.
Qed.

Lemma count_digits_le (s : str) : Py.count_digits s <= Z.of_nat (length s).
Proof.
  unfold Py.count_digits. apply inj_le.
  induction s as [|c s IH]; simpl; [done|]. destruct (Py.digit c); simpl; lia.
Qed.

(** The value of what [str] prints is the integer printed. *)
Lemma literal_value_of_int (z : Z) : Py.literal_value (Py.of_int z) = Some z.
Proof.
  unfold Py.literal_value, Py.of_int.
  destruct z as [|p|p]; [done|..]; simpl Z.to_int; unfold NilZero.string_of_int,
    NilZero.string_of_uint;
    pose proof (DecimalPos.Unsigned.to_uint_nonnil p) as Hnn;
    pose proof (DecimalPos.Unsigned.of_to p) as Hp;
    destruct (Pos.to_uint p) as [|u|u|u|u|u|u|u|u|u|u] eqn:E; try done.
  all: try (destruct (string_of_uint_head _ Hnn) as (c & rest & Hs & Hm & Hpl);
            rewrite <- E in *; rewrite Hs;
            rewrite (bool_decide_eq_false_2 (c = "-"%char)) by done;
            rewrite (bool_decide_eq_false_2 (c = "+"%char)) by done;
            rewrite <- Hs, digits_of_uint by (by left); by rewrite Hp).
  all: rewrite <- E in *; cbn [lit list_ascii_of_string];
       rewrite bool_decide_eq_true_2 by done;
       change (list_ascii_of_string ?s) with (lit s);
       rewrite digits_of_uint by (by left); by rewrite Hp.
Qed.

(** [int] does not skip the separators that [str.strip] removes. *)
Example int_rejects_separator :
  Py.strip ("028"%char :: lit " 75") = lit "75"
  /\ Py.int ("028"%char :: lit " 75") = Raise ValueError
  /\ Py.int ("160"%char :: lit " 75 ") = Ok 75.
Proof. repeat split. Qed.

(** [int] reads back what [str] prints, within the limit on the digits. *)
Lemma int_of_int (z : Z) :
  Z.of_nat (length (Py.of_int z)) <= Py.MAX_STR_DIGITS ->
  Py.int (Py.of_int z) = Ok z.
Proof.
  intros Hlen. unfold Py.int.
  rewrite int_literal_no_space by apply of_int_no_space.
  rewrite literal_value_of_int.
  rewrite (proj2 (Z.leb_le _ _)); [done|].
  pose proof (count_digits_le (Py.of_int z)). lia.
Qed.

(** X14. In the multi-way parser a descriptor made of five characters and
    a printed integer of at most 4300 characters, the most that [int] and
    [str] accept, gives these five characters, a colon and the same printed
    integer: the number of a canonical token reads back as the integer it
    was printed from. *)
Theorem multi_normalize_printed (chain : str) (z : Z) :
  length chain = 5%nat ->
  Z.of_nat (length (Py.of_int z)) <= Py.MAX_STR_DIGITS ->
  multi_normalize (chain ++ Py.of_int z) = Ok (chain ++ lit ":" ++ Py.of_int z).
Proof.
  intros Hlen Hmax. rewrite multi_normalize_eq.
  rewrite decide_False by (destruct chain; done).
  rewrite drop_app_length', take_app_length' by done.
  by rewrite int_of_int.
Qed.

Lemma multi_normalize_printed_witness :
  multi_normalize (lit "A:CYS" ++ Py.of_int 341)
  = Ok (lit "A:CYS" ++ lit ":" ++ Py.of_int 341).
Proof.
  apply (multi_normalize_printed (lit "A:CYS") 341); [reflexivity | by vm_compute].
Defined.

(** ** Which parser, which names *)

Lemma substring_concat (sub line : str) (l : list str) :
  line ∈ l -> substring sub line -> substring sub (concat l).
Proof.
  intros (l1 & l2 & ->)%list_elem_of_split (pre & post & ->).
  rewrite concat_app. simpl. exists (concat l1 ++ pre), (post ++ concat l2).
  by rewrite <- !app_assoc.
Qed.

(** X15. A report with a line that contains ["reading QUERY structure"] or
    ["reading FIXED structure"] is parsed by the pairwise parser. *)
Theorem marker_line_selects_pairwise (gesamt_lines : list str) (line : str) :
  line ∈ gesamt_lines ->
  Py.contains QUERY_MARK line = true \/ Py.contains FIXED_MARK line = true ->
  two_queries gesamt_lines = true
  /\ parse gesamt_lines = parse_two_queries gesamt_lines.
Proof.
  intros Hin Hm.
  assert (two_queries gesamt_lines = true) as Htq.
  { unfold two_queries. rewrite join_empty. apply orb_true_iff.
    destruct Hm as [Hm|Hm]; [left|right]; apply contains_spec;
      apply (substring_concat _ line); try done; by apply contains_spec. }
  split; [done|]. unfold parse. by rewrite Htq.
Qed.

Lemma marker_line_selects_pairwise_witness :
  two_queries (read_gesamt pairwise_report) = true
  /\ parse (read_gesamt pairwise_report) = parse_two_queries (read_gesamt pairwise_report).
Proof.
  apply (marker_line_selects_pairwise (read_gesamt pairwise_report)
           (lit "... reading QUERY structure from file 'foo1.pdb' ...")).
  - by_decide.
  - left. vm_compute. reflexivity.
Defined.

Lemma quoted_name (line protein_filename : str) :
  Py.index (Py.split QUOTE line) 1 = Ok protein_filename ->
  "'"%char ∈ line
  /\ protein_filename = before_first "'"%char (after_first "'"%char line).
Proof.
  intros H. destruct (Py.contains QUOTE line) eqn:E.
  - change QUOTE with ["'"%char] in *. apply contains_char in E.
    split; [done|]. unfold Py.index, Py.split in H.
    rewrite split_go_second in H by done. by injection H.
  - by rewrite index_unquoted in H.
Qed.

Lemma read_proteins_names (marker : str -> bool) (gesamt_lines proteins : list str) :
  read_proteins marker gesamt_lines = Ok proteins ->
  Forall2 (fun line protein =>
             "'"%char ∈ line
             /\ protein = (Py.splitext (before_first "'"%char
                                          (after_first "'"%char line))).1)
          (filter (fun line => marker line = true) gesamt_lines) proteins.
Proof.
  revert proteins. induction gesamt_lines as [|line rest IH]; intros proteins; simpl.
  - intros [= <-]. constructor.
  - rewrite filter_cons. destruct (marker line) eqn:Hm.
    + intros (fn & Hfn & (ps & Hps & [= <-])%bind_Ok)%bind_Ok.
      rewrite decide_True by done. apply quoted_name in Hfn as [Hq ->].
      constructor; [done | by apply IH].
    + rewrite decide_False by done. apply IH.
Qed.

(** X16. The structure names returned by the parser that [main] selects
    are, in the order of the lines, one for each line that carries a
    structure-name marker of that parser: the text between the first two
    single quotes of the line, without its extension. *)
Theorem names_of_marker_lines (gesamt_lines : list str) (rows : list (list str))
    (proteins : list str) :
  parse gesamt_lines = Ok (rows, proteins) ->
  Forall2 (fun line protein =>
             "'"%char ∈ line
             /\ protein = (Py.splitext (before_first "'"%char
                                          (after_first "'"%char line))).1)
          (filter (fun line =>
                     (if two_queries gesamt_lines then pair_marker else multi_marker) line
                     = true) gesamt_lines)
          proteins.
Proof. intros H. by apply read_proteins_names, (parse_names _ rows). Qed.

Lemma names_of_marker_lines_witness :
  Forall2 (fun line protein =>
             "'"%char ∈ line
             /\ protein = (Py.splitext (before_first "'"%char
                                          (after_first "'"%char line))).1)
          (filter (fun line =>
                     (if two_queries (read_gesamt nested_report)
                      then pair_marker else multi_marker) line = true)
                  (read_gesamt nested_report))
          [lit "dir/foo1"; lit "foo2"].
Proof.
  apply (names_of_marker_lines (read_gesamt nested_report) [[lit "A:LEU:75"; lit "A:LEU:65"]]).
  vm_compute. reflexivity.
Defined.

(** ** A table without rows *)

Lemma opens_only (output_path : str) (names : list str) :
  (names ≫= fun S =>
     EOpen (label_path output_path S)
       :: (EWrite (label_path output_path S) <$> label_lines S []))
  = (fun S => EOpen (label_path output_path S)) <$> names.
Proof. induction names as [|S names IH]; [done|]. rewrite bind_cons, IH. done. Qed.

(** X17. When the parser returns no row and every label file can be
    opened, the run ends without an exception, whatever the number of
    structure names, and all it does is create (or empty) one label file
    per name, in order. *)
Theorem empty_table (can_open : str -> bool) (raw_lines : list str)
    (output_path : str) (input_proteins : option (list str))
    (parsed_names : list str) :
  parse (read_gesamt raw_lines) = Ok ([], parsed_names) ->
  Forall (fun S => can_open (label_path output_path S) = true)
         (default parsed_names input_proteins) ->
  main can_open raw_lines output_path input_proteins
  = ((fun S => EOpen (label_path output_path S)) <$> default parsed_names input_proteins,
     Ok ()).
Proof.
  intros Hp Hopen. unfold main. rewrite Hp, io_bind_lift_Ok.
  unfold label_files. change (assemble _ []) with (Ok ([] : list dict)).
  rewrite io_bind_lift_Ok, write_labels_complete; [|done|].
  - by rewrite opens_only.
  - apply Forall_forall. intros S _. constructor.
Qed.

Lemma empty_table_witness :
  main (fun _ => true) rowless_report (lit "out") (Some [lit "a"; lit "b"; lit "c"])
  = ((fun S => EOpen (label_path (lit "out") S))
       <$> default [lit "foo1"; lit "foo2"] (Some [lit "a"; lit "b"; lit "c"]),
     Ok ()).
Proof.
  apply (empty_table (fun _ => true) rowless_report (lit "out")
           (Some [lit "a"; lit "b"; lit "c"]) [lit "foo1"; lit "foo2"]).
  - vm_compute. reflexivity.
  - by_decide.
Defined.
